(** * pykerr.qnm: quasinormal modes of Kerr black holes from tabulated data

    A shallow embedding of [pykerr/qnm.py].  Python floats and numpy's
    float64 are IEEE binary64 numbers, embedded as Rocq's primitive floats;
    numpy's complex128 is a pair of them with numpy's arithmetic written
    out.  The two module-level dictionaries that cache the splines are part
    of an explicit world that every function threads, together with a log
    of the resources requested from the package.  Exceptions are values. *)

From stdpp Require Import base option list gmap strings pretty.
From Stdlib Require Import ZArith Floats.

#[local] Set Warnings "-inexact-float".
#[local] Open Scope Z_scope.

(** ** Numbers *)

Module Py.

(** Conversion of a Python [int] that meets a float64 in a product. *)
Definition float_of_int (z : Z) : float :=
  SF2Prim (binary_normalize prec emax z 0 false).

(** [numpy.pi] *)
Definition pi : float := 3.141592653589793%float.

(** complex128 *)
Record complex : Set := Complex { real : float; imag : float }.

Definition of_float (x : float) : complex := Complex x 0%float.

(** The literal [1j]. *)
Definition j : complex := Complex 0%float 1%float.

Definition add (a b : complex) : complex :=
  Complex (real a + real b)%float (imag a + imag b)%float.

Definition mul (a b : complex) : complex :=
  Complex (real a * real b - imag a * imag b)%float
          (real a * imag b + imag a * real b)%float.

(** [==] on complex numbers: both parts compare equal as floats. *)
Definition eqb (a b : complex) : bool :=
  PrimFloat.eqb (real a) (real b) && PrimFloat.eqb (imag a) (imag b).

Definition is_nan (x : float) : bool := negb (PrimFloat.eqb x x).

End Py.

(** ** Arrays read from the data files *)

Inductive ndarray : Set :=
| FloatArray (xs : list float)
| ComplexArray (zs : list Py.complex).

(** [a.real], [a.imag] and [a.astype(float)] *)
Definition ndarray_real (a : ndarray) : ndarray :=
  match a with
  | FloatArray xs => FloatArray xs
  | ComplexArray zs => FloatArray (map Py.real zs)
  end.

Definition ndarray_imag (a : ndarray) : ndarray :=
  match a with
  | FloatArray xs => FloatArray (map (fun _ => 0%float) xs)
  | ComplexArray zs => FloatArray (map Py.imag zs)
  end.

Definition astype_float (a : ndarray) : list float :=
  match a with
  | FloatArray xs => xs
  | ComplexArray zs => map Py.real zs
  end.

(** An HDF5 file: named groups of named datasets. *)
Abbreviation h5group := (gmap string ndarray).
Abbreviation h5file := (gmap string (gmap string ndarray)).

(** ** Exceptions and the world *)

Inductive exn : Set :=
| ValueError (msg : string)
| KeyError (key : string)
| OSError (path : string).

Inductive result (A : Type) : Type :=
| Ok (a : A)
| Raise (e : exn).
Arguments Ok {A} a.
Arguments Raise {A} e.

(** What [InterpolatedUnivariateSpline(x, y)] is once built: a callable. *)
Abbreviation spline := (float -> float).

Abbreviation key := (Z * Z * Z)%type.

Record world : Type := World {
  _reomega_splines : gmap key spline;
  _imomega_splines : gmap key spline;
  requested : list string
}.

(** The state of the module when it has just been imported. *)
Definition initial_world : world := World ∅ ∅ [].

(** The two dictionaries are passed to [_getspline] by reference. *)
Inductive dict_ref : Set := reomega_ref | imomega_ref.

#[global] Instance dict_ref_eq_dec : EqDecision dict_ref.
Proof. solve_decision. Defined.

Definition deref (d : dict_ref) (w : world) : gmap key spline :=
  match d with
  | reomega_ref => _reomega_splines w
  | imomega_ref => _imomega_splines w
  end.

Definition assign (d : dict_ref) (c : gmap key spline) (w : world) : world :=
  match d with
  | reomega_ref => World c (_imomega_splines w) (requested w)
  | imomega_ref => World (_reomega_splines w) c (requested w)
  end.

(** Computations: they read and write the world and may raise; what was
    written before an exception stays written. *)
Definition M (A : Type) : Type := world -> result A * world.

Definition ret {A} (a : A) : M A := fun w => (Ok a, w).

Definition raise {A} (e : exn) : M A := fun w => (Raise e, w).

Definition bind {A B} (c : M A) (k : A -> M B) : M B :=
  fun w =>
    match c w with
    | (Ok a, w') => k a w'
    | (Raise e, w') => (Raise e, w')
    end.

(** [try: c  except <the exceptions h answers>: h e] *)
Definition try_except {A} (c : M A) (h : exn -> option (M A)) : M A :=
  fun w =>
    match c w with
    | (Ok a, w') => (Ok a, w')
    | (Raise e, w') =>
        match h e with
        | Some handler => handler w'
        | None => (Raise e, w')
        end
    end.

Notation "x <- c ;; k" := (bind c (fun x => k))
  (at level 100, c at next level, right associativity).
Notation "c ;;; k" := (bind c (fun _ => k))
  (at level 100, right associativity).

(** [repr] of a key tuple, as a [KeyError] of a dict shows it. *)
Definition repr_key (k : key) : string :=
  "(" +:+ pretty k.1.1 +:+ ", " +:+ pretty k.1.2 +:+ ", " +:+ pretty k.2 +:+ ")".

(** [cache[k]] *)
Definition dict_getitem (d : dict_ref) (k : key) : M spline :=
  fun w =>
    match deref d w !! k with
    | Some s => (Ok s, w)
    | None => (Raise (KeyError (repr_key k)), w)
    end.

(** [cache[k] = s] *)
Definition dict_setitem (d : dict_ref) (k : key) (s : spline) : M unit :=
  fun w => (Ok tt, assign d (<[k := s]> (deref d w)) w).

(** [g[name]] on an open HDF5 file or group. *)
Definition h5_getitem {V} (g : gmap string V) (name : string) : M V :=
  match g !! name with
  | Some v => ret v
  | None => raise (KeyError name)
  end.

(** ** Constants *)

(** the maximum spin we'll allow *)
Definition MAX_SPIN : float := 0.9997%float.

(** [str(MAX_SPIN)] *)
Definition MAX_SPIN_str : string := "0.9997".

(** solar masses in seconds *)
Definition MTSUN : float := 4.925491025543576e-06%float.

(** A zero, a finite number or an infinity of the given sign. *)
Definition signed_as (s : bool) (x : spec_float) : Prop :=
  match x with
  | S754_zero s' | S754_infinity s' | S754_finite s' _ _ => s' = s
  | S754_nan => False
  end.

(** ** A small package, used to run the functions on concrete inputs

    One table file for [l = 2] with the groups of the modes (2,2,0) and
    (2,0,0), a group (2,1,0) that lacks its omega dataset, and straight
    lines through the samples in the place of scipy's spline. *)

Fixpoint polyline (xs ys : list float) (s : float) : float :=
  match xs, ys with
  | x0 :: ((x1 :: _) as xs'), y0 :: ((y1 :: _) as ys') =>
      if (PrimFloat.leb s x1 || match xs' with [_] => true | _ => false end)%bool
      then (y0 + (s - x0) * ((y1 - y0) / (x1 - x0)))%float
      else polyline xs' ys' s
  | _, y0 :: _ => y0
  | _, _ => PrimFloat.nan
  end.

Definition demo_spins : ndarray :=
  FloatArray [(-0.9997)%float; 0%float; 0.5%float; 0.9997%float].

Definition demo_omega_220 : ndarray :=
  ComplexArray [Py.Complex 0.2915%float (-0.0881)%float;
                Py.Complex 0.3737%float (-0.0890)%float;
                Py.Complex 0.4641%float (-0.0856)%float;
                Py.Complex 0.9787%float (-0.0103)%float].

Definition demo_omega_200 : ndarray :=
  ComplexArray [Py.Complex 0.4253%float (-0.0718)%float;
                Py.Complex 0.3737%float (-0.0890)%float;
                Py.Complex 0.3833%float (-0.0873)%float;
                Py.Complex 0.4253%float (-0.0718)%float].

Definition demo_l2 : h5file :=
  {[ "220" := {[ "spin" := demo_spins; "omega" := demo_omega_220 ]};
     "200" := {[ "spin" := demo_spins; "omega" := demo_omega_200 ]};
     "210" := {[ "spin" := demo_spins ]} ]}.

Definition demo_package : gmap string h5file :=
  {[ "data/l2.hdf" := demo_l2 ]}.

(** The world after a first request for the real part of the mode (2,2,0). *)
Definition demo_respline_220 : spline :=
  polyline (astype_float demo_spins) (astype_float (ndarray_real demo_omega_220)).

Definition demo_world : world :=
  World {[ (2, 2, 0) := demo_respline_220 ]} ∅ ["data/l2.hdf"].

(** A package in which the tenth overtone of the mode (2,1) is tabulated. *)
Definition demo_package_overtones : gmap string h5file :=
  {[ "data/l2.hdf" :=
       {[ "2110" := {[ "spin" := demo_spins; "omega" := demo_omega_220 ]} ]} ]}.

(** A call of one of the three public functions. *)
Inductive call : Set :=
| call_omega (spin : float) (l m n : Z)
| call_freq (mass spin : float) (l m n : Z)
| call_tau (mass spin : float) (l m n : Z).

(** ** The module *)

Section qnm.

(** The files under [data/] of the installed package, by resource name. *)
Variable package_data : gmap string h5file.

(** scipy's constructor, which is not part of the package; the spline it
    returns is evaluated by calling it. *)
Variable InterpolatedUnivariateSpline : list float -> list float -> spline.

(** [pkg_resources.resource_stream(__name__, path)] *)
Definition resource_stream (path : string) : M h5file :=
  fun w =>
    let w' := World (_reomega_splines w) (_imomega_splines w)
                    (requested w ++ [path]) in
    match package_data !! path with
    | Some f => (Ok f, w')
    | None => (Raise (OSError path), w')
    end.

Definition _create_spline (name reim : string) (l m n : Z) : M spline :=
  let lmn := pretty l +:+ pretty (Z.abs m) +:+ pretty n in
  fp <- try_except (resource_stream ("data/l" +:+ pretty l +:+ ".hdf"))
          (fun e =>
             match e with
             | OSError _ =>
                 Some (raise (ValueError
                   ("unsupported lmn " +:+ pretty l +:+ pretty m +:+ pretty n)))
             | _ => None
             end) ;;
  g <- h5_getitem fp lmn ;;
  xd <- h5_getitem g "spin" ;;
  let x := astype_float xd in
  g <- h5_getitem fp lmn ;;
  y <- h5_getitem g name ;;
  y <- (if String.eqb reim "re" then ret (astype_float (ndarray_real y))
        else if String.eqb reim "im" then ret (astype_float (ndarray_imag y))
        else raise (ValueError "reim must be eiter 're' or 'im'")) ;;
  ret (InterpolatedUnivariateSpline x y).

Definition _getspline (name reim : string) (l m n : Z) (cache : dict_ref)
  : M spline :=
  try_except (dict_getitem cache (l, Z.abs m, n))
    (fun e =>
       match e with
       | KeyError _ =>
           Some (spline <- _create_spline name reim l m n ;;
                 dict_setitem cache (l, Z.abs m, n) spline ;;;
                 ret spline)
       | _ => None
       end).

Definition _checkspin (spin : float) : M unit :=
  if PrimFloat.ltb MAX_SPIN (PrimFloat.abs spin)
  then raise (ValueError ("|spin| must be < " +:+ MAX_SPIN_str))
  else ret tt.

Definition kerr_omega (spin : float) (l m n : Z) : M Py.complex :=
  _checkspin spin ;;;
  respline <- _getspline "omega" "re" l m n reomega_ref ;;
  imspline <- _getspline "omega" "im" l m n imomega_ref ;;
  let spin := if m =? 0 then PrimFloat.abs spin else spin in
  let sign := (-1) ^ Z.b2z (m <? 0) in
  ret (Py.add (Py.of_float (Py.float_of_int sign * respline spin))
              (Py.mul Py.j (Py.of_float (imspline spin)))).

Definition kerr_freq (mass spin : float) (l m n : Z) : M float :=
  _checkspin spin ;;;
  spline <- _getspline "omega" "re" l m n reomega_ref ;;
  let spin := if m =? 0 then PrimFloat.abs spin else spin in
  let sign := (-1) ^ Z.b2z (m <? 0) in
  ret (Py.float_of_int sign * spline spin
       / (Py.float_of_int 2 * Py.pi * mass * MTSUN))%float.

Definition kerr_tau (mass spin : float) (l m n : Z) : M float :=
  _checkspin spin ;;;
  spline <- _getspline "omega" "im" l m n imomega_ref ;;
  let spin := if m =? 0 then PrimFloat.abs spin else spin in
  ret (- mass * MTSUN / spline spin)%float.

(** ** What the statements below speak about *)

Definition resource_name (l : Z) : string := "data/l" +:+ pretty l +:+ ".hdf".

Definition lmn_name (l m n : Z) : string :=
  pretty l +:+ pretty (Z.abs m) +:+ pretty n.

(** The spin and omega datasets of a mode, when the package has them. *)
Definition mode_data (l m n : Z) : option (ndarray * ndarray) :=
  fp ← package_data !! resource_name l;
  g ← fp !! lmn_name l m n;
  xd ← g !! "spin";
  yd ← g !! "omega";
  Some (xd, yd).

(** The interpolants of the real and of the imaginary part of omega. *)
Definition Re_interpolant (d : ndarray * ndarray) : spline :=
  InterpolatedUnivariateSpline
    (astype_float d.1) (astype_float (ndarray_real d.2)).

Definition Im_interpolant (d : ndarray * ndarray) : spline :=
  InterpolatedUnivariateSpline
    (astype_float d.1) (astype_float (ndarray_imag d.2)).

(** What [_create_spline] returns or raises; it does not depend on the
    world. *)
Definition loaded (name reim : string) (l m n : Z) : result spline :=
  fst (_create_spline name reim l m n initial_world).

(** The world after a request for the table file of [l]. *)
Definition after_request (l : Z) (w : world) : world :=
  World (_reomega_splines w) (_imomega_splines w)
        (requested w ++ [resource_name l]).

(** The error of [_checkspin]. *)
Definition OutOfRangeSpin : exn := ValueError "|spin| must be < 0.9997".

(** The error of [_create_spline] for a mode without a table file. *)
Definition InvalidMode (l m n : Z) : exn :=
  ValueError ("unsupported lmn " +:+ pretty l +:+ pretty m +:+ pretty n).

Definition effective_spin (spin : float) (m : Z) : float :=
  if m =? 0 then PrimFloat.abs spin else spin.

Definition sign_of (m : Z) : float :=
  if m <? 0 then (-1)%float else 1%float.

(** Running calls one after the other, whatever they return or raise. *)
Definition exec (c : call) (w : world) : world :=
  match c with
  | call_omega spin l m n => snd (kerr_omega spin l m n w)
  | call_freq mass spin l m n => snd (kerr_freq mass spin l m n w)
  | call_tau mass spin l m n => snd (kerr_tau mass spin l m n w)
  end.

Definition run (cs : list call) (w : world) : world :=
  foldl (fun w c => exec c w) w cs.

(** The worlds a program can be in that only calls the public functions. *)
Definition reachable (w : world) : Prop :=
  exists cs, w = run cs initial_world.

(** Every cached spline is the interpolant of the data of its key. *)
Definition coherent (w : world) : Prop :=
  (forall l a n s, _reomega_splines w !! (l, a, n) = Some s ->
     exists d, mode_data l a n = Some d /\ s = Re_interpolant d) /\
  (forall l a n s, _imomega_splines w !! (l, a, n) = Some s ->
     exists d, mode_data l a n = Some d /\ s = Im_interpolant d).

(** ** Facts about binary64 arithmetic *)

Lemma SFopp_binary_round_aux s m e l :
  SFopp (binary_round_aux prec emax s m e l) = binary_round_aux prec emax (negb s) m e l.
Proof.
  unfold binary_round_aux.
  destruct (shr_fexp prec emax m e l) as [mrs e'].
  destruct (shr_fexp prec emax _ e' loc_Exact) as [mrs' e''].
  destruct (shr_m mrs'); [reflexivity| |reflexivity].
  destruct (e'' <=? emax - prec); reflexivity.
Qed.

Lemma SFmul_opp_l x y :
  SFmul prec emax (SFopp x) y = SFopp (SFmul prec emax x y).
Proof.
  destruct x as [sx|sx| |sx mx ex], y as [sy|sy| |sy my ey]; try reflexivity;
    try (destruct sx, sy; reflexivity).
  unfold SFmul, SFopp at 1. rewrite SFopp_binary_round_aux.
  destruct sx, sy; reflexivity.
Qed.

Lemma mul_neg_one x : ((-1) * x = - (1 * x))%float.
Proof.
  apply Prim2SF_inj. rewrite opp_spec, !mul_spec.
  change (Prim2SF (-1)) with (SFopp (Prim2SF 1)).
  apply SFmul_opp_l.
Qed.

Lemma SFcompare_refl x : x <> S754_nan -> SFcompare x x = Some Eq.
Proof.
  destruct x as [s|s| |s m e]; try done.
  - by destruct s.
  - intros _. simpl. rewrite Z.compare_refl, Pos.compare_cont_refl. by destruct s.
Qed.

Lemma is_nan_spec x : Py.is_nan x = true <-> Prim2SF x = S754_nan.
Proof.
  unfold Py.is_nan. rewrite FloatAxioms.eqb_spec. unfold SFeqb.
  split.
  - destruct (Prim2SF x) as [s|s| |s m e] eqn:E; try done.
    all: rewrite SFcompare_refl; done.
  - intros ->. done.
Qed.

Lemma SFadd_nan_r x : SFadd prec emax x S754_nan = S754_nan.
Proof. by destruct x as [[]|[]| |]. Qed.

Lemma SFeqb_refl x : x <> S754_nan -> SFeqb x x = true.
Proof. intros H. unfold SFeqb. by rewrite SFcompare_refl. Qed.

Lemma SFadd_zero_r x s :
  (exists s', x = S754_zero s') \/ SFadd prec emax x (S754_zero s) = x.
Proof. destruct x as [sx|sx| |sx mx ex]; eauto. Qed.

Lemma SFopp_add_zero x s :
  x <> S754_nan ->
  SFeqb (SFadd prec emax (SFopp x) (S754_zero s))
        (SFopp (SFadd prec emax x (S754_zero s))) = true.
Proof.
  destruct x as [sx|sx| |sx mx ex]; intros Hx; try done.
  - by destruct sx, s.
  - by destruct sx.
  - cbn [SFopp SFadd]. apply SFeqb_refl. done.
Qed.

Lemma SFdiv_add_zero x d s :
  SFdiv prec emax x d <> S754_nan ->
  SFeqb (SFdiv prec emax x d)
        (SFdiv prec emax (SFadd prec emax x (S754_zero s)) d) = true.
Proof.
  intros Hx. destruct (SFadd_zero_r x s) as [[s' ->] | ->].
  - destruct d as [sd|sd| |sd md ed]; try done;
      destruct s', s, sd; done.
  - by apply SFeqb_refl.
Qed.

(** The real part of [1j * x] for a float [x]: a zero, unless [x] is
    infinite or not a number. *)
Lemma real_j_mul x :
  Prim2SF (0 * x - 1 * 0)%float = S754_nan \/
  exists s, Prim2SF (0 * x - 1 * 0)%float = S754_zero s.
Proof.
  rewrite sub_spec, mul_spec.
  change (Prim2SF (1 * 0)%float) with (S754_zero false).
  change (Prim2SF 0%float) with (S754_zero false).
  destruct (Prim2SF x) as [sx|sx| |sx mx ex]; cbn; eauto.
  all: destruct sx; eauto.
Qed.

Lemma is_nan_false x : Py.is_nan x = false <-> Prim2SF x <> S754_nan.
Proof.
  rewrite <- is_nan_spec. destruct (Py.is_nan x); split; done.
Qed.

Lemma add_real_j_mul a x :
  Py.is_nan (a + (0 * x - 1 * 0))%float = false ->
  Prim2SF a <> S754_nan /\ exists s, Prim2SF (0 * x - 1 * 0)%float = S754_zero s.
Proof.
  rewrite is_nan_false, add_spec. intros H.
  destruct (real_j_mul x) as [E | E].
  - rewrite E in H. unfold SF64add in H. by rewrite SFadd_nan_r in H.
  - split; [|done]. intros Ha. rewrite Ha in H. by destruct H.
Qed.

Lemma real_negated (r x : float) :
  Py.is_nan (1 * r + (0 * x - 1 * 0))%float = false ->
  ((-1) * r + (0 * x - 1 * 0) =? - (1 * r + (0 * x - 1 * 0)))%float = true.
Proof.
  intros H. apply add_real_j_mul in H as [Ha [s Hz]].
  rewrite FloatAxioms.eqb_spec, opp_spec, !add_spec, mul_neg_one, opp_spec, Hz.
  by apply SFopp_add_zero.
Qed.

Lemma SFopp_involutive x : SFopp (SFopp x) = x.
Proof. destruct x as [[]|[]| |[]]; done. Qed.

Lemma real_negated' (r x : float) :
  Py.is_nan ((-1) * r + (0 * x - 1 * 0))%float = false ->
  (1 * r + (0 * x - 1 * 0) =? - ((-1) * r + (0 * x - 1 * 0)))%float = true.
Proof.
  intros H. apply add_real_j_mul in H as [Ha [s Hz]].
  rewrite mul_neg_one, opp_spec in Ha.
  rewrite FloatAxioms.eqb_spec, opp_spec, !add_spec, mul_neg_one, opp_spec, Hz.
  set (A := Prim2SF (1 * r)) in *.
  rewrite <- (SFopp_involutive A) at 1.
  apply SFopp_add_zero. done.
Qed.

Lemma quotient_of_real (a x d : float) :
  Py.is_nan (a + (0 * x - 1 * 0))%float = false ->
  Py.is_nan (a / d)%float = false ->
  (a / d =? (a + (0 * x - 1 * 0)) / d)%float = true.
Proof.
  intros H Hq. apply add_real_j_mul in H as [Ha [s Hz]].
  apply is_nan_false in Hq. rewrite div_spec in Hq.
  rewrite FloatAxioms.eqb_spec, !div_spec, add_spec, Hz.
  by apply SFdiv_add_zero.
Qed.

(** ** The loader and the cache *)

Lemma create_spline_run name reim l m n w :
  _create_spline name reim l m n w
  = (loaded name reim l m n, after_request l w).
Proof.
  unfold loaded, _create_spline, bind, try_except, resource_stream,
    after_request, resource_name, h5_getitem, ret, raise.
  destruct (package_data !! _) as [fp|]; [|done].
  destruct (fp !! _) as [g|]; [|done].
  destruct (g !! "spin") as [xd|]; [|done].
  destruct (g !! name) as [yd|]; [|done].
  destruct (String.eqb reim "re"); [done|].
  destruct (String.eqb reim "im"); done.
Qed.

Lemma loaded_data l m n d :
  mode_data l m n = Some d ->
  loaded "omega" "re" l m n = Ok (Re_interpolant d) /\
  loaded "omega" "im" l m n = Ok (Im_interpolant d).
Proof.
  unfold mode_data, loaded, _create_spline, bind, try_except,
    resource_stream, resource_name, lmn_name, h5_getitem, ret, raise.
  destruct (package_data !! _) as [fp|]; [|done]. cbn.
  destruct (fp !! _) as [g|]; [|done]. cbn.
  destruct (g !! "spin") as [xd|]; [|done]. cbn.
  destruct (g !! "omega") as [yd|]; [|done]. cbn.
  by intros [= <-].
Qed.

Lemma loaded_re_inv l m n s :
  loaded "omega" "re" l m n = Ok s ->
  exists d, mode_data l m n = Some d /\ s = Re_interpolant d.
Proof.
  unfold mode_data, loaded, _create_spline, bind, try_except,
    resource_stream, resource_name, lmn_name, h5_getitem, ret, raise.
  destruct (package_data !! _) as [fp|]; [|done]. cbn.
  destruct (fp !! _) as [g|]; [|done]. cbn.
  destruct (g !! "spin") as [xd|]; [|done]. cbn.
  destruct (g !! "omega") as [yd|]; [|done]. cbn.
  intros [= <-]. by exists (xd, yd).
Qed.

Lemma loaded_im_inv l m n s :
  loaded "omega" "im" l m n = Ok s ->
  exists d, mode_data l m n = Some d /\ s = Im_interpolant d.
Proof.
  unfold mode_data, loaded, _create_spline, bind, try_except,
    resource_stream, resource_name, lmn_name, h5_getitem, ret, raise.
  destruct (package_data !! _) as [fp|]; [|done]. cbn.
  destruct (fp !! _) as [g|]; [|done]. cbn.
  destruct (g !! "spin") as [xd|]; [|done]. cbn.
  destruct (g !! "omega") as [yd|]; [|done]. cbn.
  intros [= <-]. by exists (xd, yd).
Qed.

Lemma mode_data_abs l m n : mode_data l (Z.abs m) n = mode_data l m n.
Proof. unfold mode_data, lmn_name. by rewrite Z.abs_idemp. Qed.

Lemma getspline_run name reim l m n d w :
  _getspline name reim l m n d w =
  match deref d w !! (l, Z.abs m, n) with
  | Some s => (Ok s, w)
  | None =>
      match loaded name reim l m n with
      | Ok s => (Ok s, assign d (<[(l, Z.abs m, n) := s]> (deref d w))
                              (after_request l w))
      | Raise e => (Raise e, after_request l w)
      end
  end.
Proof.
  unfold _getspline, try_except, dict_getitem.
  destruct (deref d w !! _) as [s|]; [done|].
  unfold bind. rewrite create_spline_run.
  destruct (loaded name reim l m n) as [s|e]; [|done].
  unfold dict_setitem, ret. by destruct d.
Qed.

Lemma deref_after_request d l w : deref d (after_request l w) = deref d w.
Proof. by destruct d. Qed.

Lemma deref_assign d c w : deref d (assign d c w) = c.
Proof. by destruct d. Qed.

Lemma deref_assign_ne d d' c w : d <> d' -> deref d' (assign d c w) = deref d' w.
Proof. by destruct d, d'. Qed.

(** An entry of a cache survives a call of [_getspline], whatever its
    arguments. *)
Lemma getspline_keeps name reim l m n d d' k s w :
  deref d' w !! k = Some s ->
  deref d' (snd (_getspline name reim l m n d w)) !! k = Some s.
Proof.
  intros Hk. rewrite getspline_run.
  destruct (deref d w !! (l, Z.abs m, n)) as [s'|] eqn:Hd; [done|].
  destruct (loaded name reim l m n) as [s'|e]; cbn.
  - destruct (decide (d = d')) as [<-|Hne].
    + rewrite deref_assign, lookup_insert_ne; [done|]. congruence.
    + by rewrite deref_assign_ne, deref_after_request.
  - by rewrite deref_after_request.
Qed.

Lemma checkspin_run spin w :
  _checkspin spin w =
  if PrimFloat.ltb MAX_SPIN (PrimFloat.abs spin)
  then (Raise OutOfRangeSpin, w) else (Ok tt, w).
Proof. unfold _checkspin. by destruct (PrimFloat.ltb _ _). Qed.

Lemma float_of_sign m :
  Py.float_of_int ((-1) ^ Z.b2z (m <? 0)) = sign_of m.
Proof. unfold sign_of. by destruct (m <? 0). Qed.

Lemma kerr_omega_run spin l m n w :
  kerr_omega spin l m n w =
  if PrimFloat.ltb MAX_SPIN (PrimFloat.abs spin)
  then (Raise OutOfRangeSpin, w)
  else
    match _getspline "omega" "re" l m n reomega_ref w with
    | (Ok respline, w1) =>
        match _getspline "omega" "im" l m n imomega_ref w1 with
        | (Ok imspline, w2) =>
            (Ok (Py.add
                   (Py.of_float
                      (sign_of m * respline (effective_spin spin m)))
                   (Py.mul Py.j
                      (Py.of_float (imspline (effective_spin spin m))))),
             w2)
        | (Raise e, w2) => (Raise e, w2)
        end
    | (Raise e, w1) => (Raise e, w1)
    end.
Proof.
  unfold kerr_omega, bind at 1. rewrite checkspin_run.
  destruct (PrimFloat.ltb _ _); [done|].
  unfold bind. destruct (_getspline _ _ _ _ _ reomega_ref w) as [[re|e] w1]; [|done].
  destruct (_getspline _ _ _ _ _ imomega_ref w1) as [[im|e] w2]; [|done].
  unfold ret. by rewrite float_of_sign.
Qed.

Lemma kerr_freq_run mass spin l m n w :
  kerr_freq mass spin l m n w =
  if PrimFloat.ltb MAX_SPIN (PrimFloat.abs spin)
  then (Raise OutOfRangeSpin, w)
  else
    match _getspline "omega" "re" l m n reomega_ref w with
    | (Ok spline, w1) =>
        (Ok (sign_of m * spline (effective_spin spin m)
             / (2 * Py.pi * mass * MTSUN))%float, w1)
    | (Raise e, w1) => (Raise e, w1)
    end.
Proof.
  unfold kerr_freq, bind at 1. rewrite checkspin_run.
  destruct (PrimFloat.ltb _ _); [done|].
  unfold bind. destruct (_getspline _ _ _ _ _ reomega_ref w) as [[re|e] w1]; [|done].
  unfold ret. by rewrite float_of_sign.
Qed.

Lemma kerr_tau_run mass spin l m n w :
  kerr_tau mass spin l m n w =
  if PrimFloat.ltb MAX_SPIN (PrimFloat.abs spin)
  then (Raise OutOfRangeSpin, w)
  else
    match _getspline "omega" "im" l m n imomega_ref w with
    | (Ok spline, w1) =>
        (Ok (- mass * MTSUN / spline (effective_spin spin m))%float, w1)
    | (Raise e, w1) => (Raise e, w1)
    end.
Proof.
  unfold kerr_tau, bind at 1. rewrite checkspin_run.
  destruct (PrimFloat.ltb _ _); [done|].
  unfold bind. by destruct (_getspline _ _ _ _ _ imomega_ref w) as [[im|e] w1].
Qed.

Lemma exec_keeps c d k s w :
  deref d w !! k = Some s -> deref d (exec c w) !! k = Some s.
Proof.
  intros Hk. destruct c as [spin l m n|mass spin l m n|mass spin l m n]; cbn.
  - rewrite kerr_omega_run. destruct (PrimFloat.ltb _ _); [done|].
    pose proof (getspline_keeps "omega" "re" l m n reomega_ref d k s w Hk) as H1.
    destruct (_getspline _ _ _ _ _ reomega_ref w) as [[re|e] w1]; [|done].
    pose proof (getspline_keeps "omega" "im" l m n imomega_ref d k s w1 H1) as H2.
    by destruct (_getspline _ _ _ _ _ imomega_ref w1) as [[im|e] w2].
  - rewrite kerr_freq_run. destruct (PrimFloat.ltb _ _); [done|].
    pose proof (getspline_keeps "omega" "re" l m n reomega_ref d k s w Hk) as H1.
    by destruct (_getspline _ _ _ _ _ reomega_ref w) as [[re|e] w1].
  - rewrite kerr_tau_run. destruct (PrimFloat.ltb _ _); [done|].
    pose proof (getspline_keeps "omega" "im" l m n imomega_ref d k s w Hk) as H1.
    by destruct (_getspline _ _ _ _ _ imomega_ref w) as [[re|e] w1].
Qed.

Lemma run_keeps cs d k s w :
  deref d w !! k = Some s -> deref d (run cs w) !! k = Some s.
Proof.
  revert w. induction cs as [|c cs IH]; intros w Hk; [done|].
  cbn. apply IH. by apply exec_keeps.
Qed.

(** ** Worlds reached through the public functions *)

Lemma initial_coherent : coherent initial_world.
Proof. split; intros l a n s H; cbn in H; by rewrite lookup_empty in H. Qed.

Lemma getspline_re_coherent l m n w :
  coherent w -> coherent (snd (_getspline "omega" "re" l m n reomega_ref w)).
Proof.
  intros [Hre Him]. rewrite getspline_run. cbn [deref].
  destruct (_reomega_splines w !! (l, Z.abs m, n)) as [s|] eqn:Hd; [done|].
  destruct (loaded "omega" "re" l m n) as [s|e] eqn:Hl; [|done].
  apply loaded_re_inv in Hl as [d [Hd' ->]].
  split; cbn; [|done]. intros l' a n' s'.
  destruct (decide ((l, Z.abs m, n) = (l', a, n'))) as [[= <- <- <-]|Hne].
  - rewrite lookup_insert_eq. intros [= <-]. exists d. by rewrite mode_data_abs.
  - rewrite lookup_insert_ne by done. apply Hre.
Qed.

Lemma getspline_im_coherent l m n w :
  coherent w -> coherent (snd (_getspline "omega" "im" l m n imomega_ref w)).
Proof.
  intros [Hre Him]. rewrite getspline_run. cbn [deref].
  destruct (_imomega_splines w !! (l, Z.abs m, n)) as [s|] eqn:Hd; [done|].
  destruct (loaded "omega" "im" l m n) as [s|e] eqn:Hl; [|done].
  apply loaded_im_inv in Hl as [d [Hd' ->]].
  split; cbn; [done|]. intros l' a n' s'.
  destruct (decide ((l, Z.abs m, n) = (l', a, n'))) as [[= <- <- <-]|Hne].
  - rewrite lookup_insert_eq. intros [= <-]. exists d. by rewrite mode_data_abs.
  - rewrite lookup_insert_ne by done. apply Him.
Qed.

Lemma exec_coherent c w : coherent w -> coherent (exec c w).
Proof.
  intros Hw. destruct c as [spin l m n|mass spin l m n|mass spin l m n]; cbn.
  - rewrite kerr_omega_run. destruct (PrimFloat.ltb _ _); [done|].
    pose proof (getspline_re_coherent l m n w Hw) as H1.
    destruct (_getspline _ _ _ _ _ reomega_ref w) as [[re|e] w1]; [|done].
    pose proof (getspline_im_coherent l m n w1 H1) as H2.
    by destruct (_getspline _ _ _ _ _ imomega_ref w1) as [[im|e] w2].
  - rewrite kerr_freq_run. destruct (PrimFloat.ltb _ _); [done|].
    pose proof (getspline_re_coherent l m n w Hw) as H1.
    by destruct (_getspline _ _ _ _ _ reomega_ref w) as [[re|e] w1].
  - rewrite kerr_tau_run. destruct (PrimFloat.ltb _ _); [done|].
    pose proof (getspline_im_coherent l m n w Hw) as H1.
    by destruct (_getspline _ _ _ _ _ imomega_ref w) as [[re|e] w1].
Qed.

Lemma run_coherent cs w : coherent w -> coherent (run cs w).
Proof.
  revert w. induction cs as [|c cs IH]; intros w Hw; [done|].
  cbn. apply IH. by apply exec_coherent.
Qed.

Lemma reachable_coherent w : reachable w -> coherent w.
Proof. intros [cs ->]. apply run_coherent, initial_coherent. Qed.

Lemma reachable_run cs w : reachable w -> reachable (run cs w).
Proof.
  intros [cs0 ->]. exists (cs0 ++ cs). unfold run. by rewrite foldl_app.
Qed.

(** With the data of the mode in the package, a coherent world hands out
    the interpolant of these data, from the cache or freshly built. *)
Lemma getspline_re_data l m n d w :
  coherent w -> mode_data l m n = Some d ->
  exists w', _getspline "omega" "re" l m n reomega_ref w
             = (Ok (Re_interpolant d), w')
             /\ coherent w' /\ _imomega_splines w' = _imomega_splines w.
Proof.
  intros Hw Hd. pose proof (getspline_re_coherent l m n w Hw) as Hc.
  rewrite getspline_run in *. cbn [deref] in *.
  destruct (_reomega_splines w !! (l, Z.abs m, n)) as [s|] eqn:Hk.
  - destruct Hw as [Hre _]. apply Hre in Hk as [d' [Hd' ->]].
    rewrite mode_data_abs, Hd in Hd'. injection Hd' as <-. by exists w.
  - destruct (loaded_data l m n d Hd) as [Hl _]. rewrite Hl in *.
    eexists. split_and!; [reflexivity|exact Hc|reflexivity].
Qed.

Lemma getspline_im_data l m n d w :
  coherent w -> mode_data l m n = Some d ->
  exists w', _getspline "omega" "im" l m n imomega_ref w
             = (Ok (Im_interpolant d), w')
             /\ coherent w' /\ _reomega_splines w' = _reomega_splines w.
Proof.
  intros Hw Hd. pose proof (getspline_im_coherent l m n w Hw) as Hc.
  rewrite getspline_run in *. cbn [deref] in *.
  destruct (_imomega_splines w !! (l, Z.abs m, n)) as [s|] eqn:Hk.
  - destruct Hw as [_ Him]. apply Him in Hk as [d' [Hd' ->]].
    rewrite mode_data_abs, Hd in Hd'. injection Hd' as <-. by exists w.
  - destruct (loaded_data l m n d Hd) as [_ Hl]. rewrite Hl in *.
    eexists. split_and!; [reflexivity|exact Hc|reflexivity].
Qed.

(** The values the three functions return on such a world. *)
Lemma kerr_omega_value spin l m n d w :
  reachable w ->
  PrimFloat.ltb MAX_SPIN (PrimFloat.abs spin) = false ->
  mode_data l m n = Some d ->
  fst (kerr_omega spin l m n w) =
  Ok (Py.add
        (Py.of_float (sign_of m * Re_interpolant d (effective_spin spin m)))
        (Py.mul Py.j
           (Py.of_float (Im_interpolant d (effective_spin spin m))))).
Proof.
  intros Hw%reachable_coherent Hs Hd. rewrite kerr_omega_run, Hs.
  destruct (getspline_re_data l m n d w Hw Hd) as (w1 & -> & Hw1 & _).
  by destruct (getspline_im_data l m n d w1 Hw1 Hd) as (w2 & -> & _).
Qed.

Lemma kerr_freq_value mass spin l m n d w :
  reachable w ->
  PrimFloat.ltb MAX_SPIN (PrimFloat.abs spin) = false ->
  mode_data l m n = Some d ->
  fst (kerr_freq mass spin l m n w) =
  Ok (sign_of m * Re_interpolant d (effective_spin spin m)
      / (2 * Py.pi * mass * MTSUN))%float.
Proof.
  intros Hw%reachable_coherent Hs Hd. rewrite kerr_freq_run, Hs.
  by destruct (getspline_re_data l m n d w Hw Hd) as (w1 & -> & _).
Qed.

Lemma kerr_tau_value mass spin l m n d w :
  reachable w ->
  PrimFloat.ltb MAX_SPIN (PrimFloat.abs spin) = false ->
  mode_data l m n = Some d ->
  fst (kerr_tau mass spin l m n w) =
  Ok (- mass * MTSUN / Im_interpolant d (effective_spin spin m))%float.
Proof.
  intros Hw%reachable_coherent Hs Hd. rewrite kerr_tau_run, Hs.
  by destruct (getspline_im_data l m n d w Hw Hd) as (w1 & -> & _).
Qed.

(** ** The sign of [m] *)

Lemma mode_data_opp l m n : mode_data l (- m) n = mode_data l m n.
Proof. unfold mode_data, lmn_name. by rewrite Z.abs_opp. Qed.

Lemma effective_spin_opp spin m :
  effective_spin spin (- m) = effective_spin spin m.
Proof.
  unfold effective_spin.
  destruct (Z.eqb_spec m 0) as [->|Hm]; [done|].
  destruct (Z.eqb_spec (- m) 0) as [Hm'|_]; [lia|done].
Qed.

Lemma sign_of_opp m :
  m <> 0 ->
  (sign_of m = 1%float /\ sign_of (- m) = (-1)%float) \/
  (sign_of m = (-1)%float /\ sign_of (- m) = 1%float).
Proof.
  intros Hm. unfold sign_of.
  destruct (Z.ltb_spec m 0), (Z.ltb_spec (- m) 0); try lia; auto.
Qed.

(** C1 (amended): for a spin within the bound and a mode with [m <> 0]
    whose data exist, [kerr_omega] negates the real part only when the
    sign of [m] is flipped: the real parts of [kerr_omega(s,l,-m,n)] and
    [kerr_omega(s,l,m,n)] are opposite (compared with [==], for a real
    part that is a number) and the imaginary parts are the same. *)
Theorem kerr_omega_negative_m spin l m n d w w' :
  reachable w -> reachable w' ->
  PrimFloat.ltb MAX_SPIN (PrimFloat.abs spin) = false ->
  m <> 0 ->
  mode_data l m n = Some d ->
  exists z z',
    fst (kerr_omega spin l m n w) = Ok z /\
    fst (kerr_omega spin l (- m) n w') = Ok z' /\
    Py.imag z' = Py.imag z /\
    (Py.is_nan (Py.real z) = false ->
     PrimFloat.eqb (Py.real z') (- Py.real z) = true).
Proof.
  intros Hw Hw' Hs Hm Hd.
  pose proof (kerr_omega_value spin l m n d w Hw Hs Hd) as E.
  assert (Hd' : mode_data l (- m) n = Some d) by by rewrite mode_data_opp.
  pose proof (kerr_omega_value spin l (- m) n d w' Hw' Hs Hd') as E'.
  rewrite effective_spin_opp in E'.
  eexists _, _. split; [exact E|]. split; [exact E'|].
  split; [reflexivity|]. cbn [Py.real Py.imag Py.add Py.mul Py.of_float Py.j].
  destruct (sign_of_opp m Hm) as [[-> ->]|[-> ->]].
  - apply real_negated.
  - apply real_negated'.
Qed.

(** ** Failures of the loader *)

Lemma loaded_no_resource name reim l m n :
  package_data !! resource_name l = None ->
  loaded name reim l m n = Raise (InvalidMode l m n).
Proof.
  unfold loaded, _create_spline, bind, try_except, resource_stream,
    resource_name. by intros ->.
Qed.

Lemma loaded_bad_selector name reim l m n fp g xd yd :
  package_data !! resource_name l = Some fp ->
  fp !! lmn_name l m n = Some g ->
  g !! "spin" = Some xd ->
  g !! name = Some yd ->
  reim <> "re" -> reim <> "im" ->
  loaded name reim l m n
  = Raise (ValueError "reim must be eiter 're' or 'im'").
Proof.
  unfold loaded, _create_spline, bind, try_except, resource_stream,
    resource_name, lmn_name, h5_getitem, ret, raise.
  intros -> -> -> -> Hre Him.
  destruct (String.eqb_spec reim "re"); [done|].
  by destruct (String.eqb_spec reim "im").
Qed.

Lemma mode_data_resource l m n d :
  mode_data l m n = Some d -> is_Some (package_data !! resource_name l).
Proof.
  unfold mode_data. destruct (package_data !! _); [eauto|done].
Qed.

(** C2 (amended): [_create_spline] fails with the error "unsupported lmn"
    followed by [l], [m] and [n] when the package has no table file for
    [l]; when the file, the group of the mode and its datasets exist and
    the selector is neither 're' nor 'im', it fails with an error about
    the selector, which does not name the mode; and in a program that only
    used the public functions, [kerr_omega(0.1, 99, 99, 0)] raises the
    first error when there is no table file for [l = 99]. *)
Theorem create_spline_failures name reim l m n w :
  (package_data !! resource_name l = None ->
   fst (_create_spline name reim l m n w) = Raise (InvalidMode l m n)) /\
  (forall fp g xd yd,
     package_data !! resource_name l = Some fp ->
     fp !! lmn_name l m n = Some g ->
     g !! "spin" = Some xd ->
     g !! name = Some yd ->
     reim <> "re" -> reim <> "im" ->
     fst (_create_spline name reim l m n w)
     = Raise (ValueError "reim must be eiter 're' or 'im'")) /\
  (reachable w ->
   package_data !! resource_name 99 = None ->
   fst (kerr_omega 0.1 99 99 0 w)
   = Raise (ValueError "unsupported lmn 99990")).
Proof.
  rewrite create_spline_run. cbn [fst]. split_and!.
  - apply loaded_no_resource.
  - intros fp g xd yd. apply loaded_bad_selector.
  - intros Hw%reachable_coherent Hno. rewrite kerr_omega_run.
    change (PrimFloat.ltb MAX_SPIN (PrimFloat.abs 0.1)) with false.
    rewrite getspline_run. cbn [deref].
    destruct (_reomega_splines w !! _) as [s|] eqn:Hk.
    + destruct Hw as [Hre _]. apply Hre in Hk as [d [Hd _]].
      apply mode_data_resource in Hd as [fp Hfp]. congruence.
    + by rewrite (loaded_no_resource _ _ _ _ _ Hno).
Qed.

(** ** The bound on the spin *)

Lemma loaded_not_spin_error name reim l m n :
  loaded name reim l m n <> Raise OutOfRangeSpin.
Proof.
  unfold loaded, _create_spline, bind, try_except, resource_stream,
    h5_getitem, ret, raise.
  destruct (package_data !! _) as [fp|]; [|done]. cbn.
  destruct (fp !! _) as [g|]; [|done]. cbn.
  destruct (g !! "spin") as [xd|]; [|done]. cbn.
  destruct (g !! name) as [yd|]; [|done]. cbn.
  destruct (String.eqb reim "re"); [done|].
  destruct (String.eqb reim "im"); done.
Qed.

Lemma getspline_not_spin_error name reim l m n d w :
  fst (_getspline name reim l m n d w) <> Raise OutOfRangeSpin.
Proof.
  rewrite getspline_run. destruct (deref d w !! _); [done|].
  pose proof (loaded_not_spin_error name reim l m n).
  by destruct (loaded name reim l m n).
Qed.

Ltac not_spin_error :=
  cbn in *; intros [= ->];
  match goal with H : Raise _ <> Raise _ |- _ => by destruct H end.

(** C3: each of [kerr_omega], [kerr_freq] and [kerr_tau] raises the
    out-of-range error exactly when [abs(spin) > MAX_SPIN]; the message
    of the error states the bound 0.9997; a spin of 0.9997 passes and a
    spin of 0.9998 does not. *)
Theorem spin_bound_checked mass spin l m n w :
  (fst (kerr_omega spin l m n w) = Raise OutOfRangeSpin
   <-> PrimFloat.ltb MAX_SPIN (PrimFloat.abs spin) = true) /\
  (fst (kerr_freq mass spin l m n w) = Raise OutOfRangeSpin
   <-> PrimFloat.ltb MAX_SPIN (PrimFloat.abs spin) = true) /\
  (fst (kerr_tau mass spin l m n w) = Raise OutOfRangeSpin
   <-> PrimFloat.ltb MAX_SPIN (PrimFloat.abs spin) = true) /\
  OutOfRangeSpin = ValueError ("|spin| must be < " +:+ MAX_SPIN_str) /\
  MAX_SPIN = 0.9997%float /\
  fst (_checkspin 0.9997 w) = Ok tt /\
  fst (_checkspin 0.9998 w) = Raise OutOfRangeSpin.
Proof.
  rewrite kerr_omega_run, kerr_freq_run, kerr_tau_run.
  split_and!; try done.
  - destruct (PrimFloat.ltb _ _); [done|]. split; [|done].
    pose proof (getspline_not_spin_error "omega" "re" l m n reomega_ref w) as H1.
    destruct (_getspline _ _ _ _ _ reomega_ref w) as [[re|e] w1]; [|by not_spin_error].
    pose proof (getspline_not_spin_error "omega" "im" l m n imomega_ref w1) as H2.
    by destruct (_getspline _ _ _ _ _ imomega_ref w1) as [[im|e] w2];
      [|not_spin_error].
  - destruct (PrimFloat.ltb _ _); [done|]. split; [|done].
    pose proof (getspline_not_spin_error "omega" "re" l m n reomega_ref w) as H1.
    by destruct (_getspline _ _ _ _ _ reomega_ref w) as [[re|e] w1];
      [|not_spin_error].
  - destruct (PrimFloat.ltb _ _); [done|]. split; [|done].
    pose proof (getspline_not_spin_error "omega" "im" l m n imomega_ref w) as H1.
    by destruct (_getspline _ _ _ _ _ imomega_ref w) as [[re|e] w1];
      [|not_spin_error].
Qed.

(** ** Frequency and damping time *)

Lemma getspline_other name reim l m n d d' w :
  d <> d' -> deref d' (snd (_getspline name reim l m n d w)) = deref d' w.
Proof.
  intros Hne. rewrite getspline_run.
  destruct (deref d w !! _); [done|].
  destruct (loaded name reim l m n); cbn.
  - by rewrite deref_assign_ne, deref_after_request.
  - by rewrite deref_after_request.
Qed.

(** C4: for a spin within the bound and a mode whose data exist,
    [kerr_tau] returns [-mass*MTSUN / Im_interpolant(effective_spin)],
    where the effective spin is [abs(spin)] when [m == 0] and the spin
    otherwise; no sign is applied for [m < 0], the cache of the real parts
    is not touched, and the call with [-m] returns the same value. *)
Theorem kerr_tau_formula mass spin l m n d w w' :
  reachable w -> reachable w' ->
  PrimFloat.ltb MAX_SPIN (PrimFloat.abs spin) = false ->
  mode_data l m n = Some d ->
  fst (kerr_tau mass spin l m n w)
  = Ok (- mass * MTSUN
        / Im_interpolant d (if (m =? 0)%Z then PrimFloat.abs spin else spin))%float
  /\ fst (kerr_tau mass spin l (- m) n w') = fst (kerr_tau mass spin l m n w)
  /\ _reomega_splines (snd (kerr_tau mass spin l m n w)) = _reomega_splines w.
Proof.
  intros Hw Hw' Hs Hd.
  rewrite (kerr_tau_value mass spin l m n d w Hw Hs Hd).
  split_and!; [done| |].
  - rewrite <- (mode_data_opp l m n) in Hd.
    rewrite (kerr_tau_value mass spin l (- m) n d w' Hw' Hs Hd).
    by rewrite effective_spin_opp.
  - rewrite kerr_tau_run, Hs.
    pose proof (getspline_other "omega" "im" l m n imomega_ref reomega_ref w) as H.
    destruct (_getspline _ _ _ _ _ imomega_ref w) as [[im|e] w1]; by apply H.
Qed.

(** C5: for a spin within the bound and a mode whose data exist,
    [kerr_freq] returns
    [sign * Re_interpolant(effective_spin) / (2*pi*mass*MTSUN)] with
    [MTSUN = 4.925491025543576e-06], [sign] -1 for [m < 0] and +1
    otherwise, and the effective spin [abs(spin)] when [m == 0] and the
    spin otherwise; the cache of the imaginary parts is not touched. *)
Theorem kerr_freq_formula mass spin l m n d w :
  reachable w ->
  PrimFloat.ltb MAX_SPIN (PrimFloat.abs spin) = false ->
  mode_data l m n = Some d ->
  fst (kerr_freq mass spin l m n w)
  = Ok ((if (m <? 0)%Z then -1 else 1)
        * Re_interpolant d (if (m =? 0)%Z then PrimFloat.abs spin else spin)
        / (2 * Py.pi * mass * MTSUN))%float
  /\ MTSUN = 4.925491025543576e-06%float
  /\ _imomega_splines (snd (kerr_freq mass spin l m n w)) = _imomega_splines w.
Proof.
  intros Hw Hs Hd.
  rewrite (kerr_freq_value mass spin l m n d w Hw Hs Hd).
  split_and!; [done|done|].
  rewrite kerr_freq_run, Hs.
  pose proof (getspline_other "omega" "re" l m n reomega_ref imomega_ref w) as H.
  destruct (_getspline _ _ _ _ _ reomega_ref w) as [[re|e] w1]; by apply H.
Qed.

(** ** Spin symmetry of the modes with [m = 0] *)

Lemma abs_opp x : PrimFloat.abs (- x) = PrimFloat.abs x.
Proof.
  apply Prim2SF_inj. rewrite !abs_spec, opp_spec.
  by destruct (Prim2SF x).
Qed.

(** C6: for a spin within the bound and [l], [n] whose data for [m = 0]
    exist, [kerr_omega(spin, l, 0, n)] and [kerr_omega(-spin, l, 0, n)]
    return the same value, the one computed at [abs(spin)]; the two
    compare equal with [==] when no part of it is a NaN. *)
Theorem kerr_omega_m0_abs_spin spin l n d w w' :
  reachable w -> reachable w' ->
  PrimFloat.ltb MAX_SPIN (PrimFloat.abs spin) = false ->
  mode_data l 0 n = Some d ->
  exists z,
    fst (kerr_omega spin l 0 n w) = Ok z /\
    fst (kerr_omega (- spin) l 0 n w') = Ok z /\
    z = Py.add (Py.of_float (1 * Re_interpolant d (PrimFloat.abs spin)))
               (Py.mul Py.j (Py.of_float (Im_interpolant d (PrimFloat.abs spin)))) /\
    (Py.is_nan (Py.real z) = false -> Py.is_nan (Py.imag z) = false ->
     Py.eqb z z = true).
Proof.
  intros Hw Hw' Hs Hd. eexists. split_and!.
  - by apply kerr_omega_value.
  - rewrite (kerr_omega_value (- spin) l 0 n d w' Hw'); [|by rewrite abs_opp|done].
    unfold effective_spin. cbn. by rewrite abs_opp.
  - done.
  - unfold Py.is_nan, Py.eqb. intros H1 H2.
    apply negb_false_iff in H1, H2. by rewrite H1, H2.
Qed.

(** ** The caches *)

(** C7: the two caches are empty at import; a successful request for a
    key that is not cached loads the table once and stores the spline
    under [(l, abs(m), n)], and a failed one stores nothing; no call of
    [_getspline] removes or replaces an entry, so from then on the entry
    stays whatever public functions are called, and any further call of
    [_getspline] for [l], [m] or [-m], and [n] on that cache returns the
    same spline and leaves the world as it is, so [_create_spline], each
    call of which adds to the log of requests, is not called again; two
    calls in a row with the same arguments give the same result. *)
Theorem getspline_cached name reim l m n d w r w1 :
  _getspline name reim l m n d w = (r, w1) ->
  _reomega_splines initial_world = ∅ /\
  _imomega_splines initial_world = ∅ /\
  (forall name' reim' l' m' n' w0,
     requested (snd (_create_spline name' reim' l' m' n' w0))
     = requested w0 ++ [resource_name l']) /\
  fst (_getspline name reim l m n d w1) = r /\
  (forall name' reim' l' m' n' d' k s' w0,
     deref d w0 !! k = Some s' ->
     deref d (snd (_getspline name' reim' l' m' n' d' w0)) !! k = Some s') /\
  (forall e, r = Raise e -> deref d w1 = deref d w) /\
  (forall s, r = Ok s ->
     (deref d w !! (l, Z.abs m, n) = None ->
        deref d w1 = <[(l, Z.abs m, n) := s]> (deref d w) /\
        requested w1 = requested w ++ [resource_name l]) /\
     deref d w1 !! (l, Z.abs m, n) = Some s /\
     (forall cs name' reim' m',
        Z.abs m' = Z.abs m ->
        deref d (run cs w1) !! (l, Z.abs m, n) = Some s /\
        _getspline name' reim' l m' n d (run cs w1) = (Ok s, run cs w1))).
Proof.
  intros Hrun.
  assert (Hhit : forall name' reim' m' w2 s,
             Z.abs m' = Z.abs m ->
             deref d w2 !! (l, Z.abs m, n) = Some s ->
             _getspline name' reim' l m' n d w2 = (Ok s, w2)).
  { intros name' reim' m' w2 s Hm H2. by rewrite getspline_run, Hm, H2. }
  assert (Hk : forall s, r = Ok s -> deref d w1 !! (l, Z.abs m, n) = Some s).
  { intros s ->. rewrite getspline_run in Hrun.
    destruct (deref d w !! _) as [s'|] eqn:Hd; [by injection Hrun as <- <-|].
    destruct (loaded name reim l m n) as [s'|e]; [|done].
    injection Hrun as <- <-. by rewrite deref_assign, lookup_insert_eq. }
  split_and!; try done.
  - intros. by rewrite create_spline_run.
  - destruct r as [s|e]; [by rewrite (Hhit _ _ m w1 s eq_refl (Hk s eq_refl))|].
    rewrite getspline_run in Hrun |- *.
    destruct (deref d w !! _) as [s'|] eqn:Hd; [done|].
    destruct (loaded name reim l m n) as [s'|e']; [done|].
    injection Hrun as <- <-. by rewrite deref_after_request, Hd.
  - intros. by apply getspline_keeps.
  - intros e ->. rewrite getspline_run in Hrun.
    destruct (deref d w !! _) as [s'|]; [done|].
    destruct (loaded name reim l m n) as [s'|e']; [done|].
    injection Hrun as _ <-. by rewrite deref_after_request.
  - intros s Hr. split_and!.
    + intros Hmiss. subst r. rewrite getspline_run, Hmiss in Hrun.
      destruct (loaded name reim l m n) as [s'|e]; [|done].
      injection Hrun as <- <-. rewrite deref_assign. by destruct d.
    + by apply Hk.
    + intros cs name' reim' m' Hm.
      split; [|apply Hhit; [done|]]; by apply run_keeps, Hk.
Qed.

(** ** Real part and frequency *)

(** C8: for a spin within the bound and a mode whose data exist,
    [kerr_freq(mass, spin, l, m, n)] and
    [Re(kerr_omega(spin, l, m, n)) / (2*pi*mass*MTSUN)] are computed from
    the interpolant of the real part at the same effective spin with the
    same sign, the real part of [kerr_omega] being that product plus the
    real part of [1j * imspline(spin)]; the two compare equal with [==]
    whenever the real part and the frequency are numbers. *)
Theorem kerr_freq_of_kerr_omega mass spin l m n d w w' :
  reachable w -> reachable w' ->
  PrimFloat.ltb MAX_SPIN (PrimFloat.abs spin) = false ->
  mode_data l m n = Some d ->
  exists f z,
    fst (kerr_freq mass spin l m n w) = Ok f /\
    fst (kerr_omega spin l m n w') = Ok z /\
    f = (sign_of m * Re_interpolant d (effective_spin spin m)
         / (2 * Py.pi * mass * MTSUN))%float /\
    Py.real z = (sign_of m * Re_interpolant d (effective_spin spin m)
                 + (0 * Im_interpolant d (effective_spin spin m) - 1 * 0))%float /\
    (Py.is_nan (Py.real z) = false -> Py.is_nan f = false ->
     PrimFloat.eqb f (Py.real z / (2 * Py.pi * mass * MTSUN)) = true).
Proof.
  intros Hw Hw' Hs Hd. eexists _, _. split_and!.
  - by apply kerr_freq_value.
  - by apply kerr_omega_value.
  - reflexivity.
  - reflexivity.
  - cbn [Py.real Py.imag Py.add Py.mul Py.of_float Py.j].
    apply quotient_of_real.
Qed.

(** ** Errors and the world *)

(** C9: a call of [kerr_omega], [kerr_freq] or [kerr_tau] with
    [abs(spin) > MAX_SPIN] raises the out-of-range error and leaves the
    world, with its two caches and its log of requests, as it was. *)
Theorem spin_error_keeps_world mass spin l m n w :
  PrimFloat.ltb MAX_SPIN (PrimFloat.abs spin) = true ->
  kerr_omega spin l m n w = (Raise OutOfRangeSpin, w) /\
  kerr_freq mass spin l m n w = (Raise OutOfRangeSpin, w) /\
  kerr_tau mass spin l m n w = (Raise OutOfRangeSpin, w).
Proof.
  intros Hs. by rewrite kerr_omega_run, kerr_freq_run, kerr_tau_run, Hs.
Qed.

(** C10: [kerr_freq] and [kerr_tau] raise exactly the errors of the spin
    check followed by the request for the spline, neither of which looks
    at the mass, and end in the same world: whatever the mass, zero and
    negative ones included, no other error is raised. *)
Theorem mass_not_validated mass spin l m n w :
  (forall e,
     fst (kerr_freq mass spin l m n w) = Raise e <->
     fst ((_checkspin spin ;;;
           _getspline "omega" "re" l m n reomega_ref) w) = Raise e) /\
  snd (kerr_freq mass spin l m n w)
  = snd ((_checkspin spin ;;;
          _getspline "omega" "re" l m n reomega_ref) w) /\
  (forall e,
     fst (kerr_tau mass spin l m n w) = Raise e <->
     fst ((_checkspin spin ;;;
           _getspline "omega" "im" l m n imomega_ref) w) = Raise e) /\
  snd (kerr_tau mass spin l m n w)
  = snd ((_checkspin spin ;;;
          _getspline "omega" "im" l m n imomega_ref) w).
Proof.
  rewrite kerr_freq_run, kerr_tau_run. unfold bind.
  rewrite checkspin_run.
  destruct (PrimFloat.ltb _ _).
  - split_and!; try done; intros e; split; by intros [= ->].
  - destruct (_getspline _ _ _ _ _ reomega_ref w) as [[re|e1] w1],
      (_getspline _ _ _ _ _ imomega_ref w) as [[im|e2] w2];
      split_and!; try done; intros e; split; by intros [= ->].
Qed.

(** * Further properties of the module *)

(** ** Results do not depend on what was called before *)

Lemma loaded_re_im l m n :
  (exists s, loaded "omega" "re" l m n = Ok s) <->
  (exists s, loaded "omega" "im" l m n = Ok s).
Proof.
  split; intros [s Hs].
  - apply loaded_re_inv in Hs as [d [Hd _]].
    destruct (loaded_data l m n d Hd) as [_ ->]. eauto.
  - apply loaded_im_inv in Hs as [d [Hd _]].
    destruct (loaded_data l m n d Hd) as [-> _]. eauto.
Qed.

Lemma loaded_data_iff l m n :
  (exists s, loaded "omega" "re" l m n = Ok s) <-> is_Some (mode_data l m n).
Proof.
  split.
  - intros [s Hs]. apply loaded_re_inv in Hs as [d [Hd _]]. eauto.
  - intros [d Hd]. destruct (loaded_data l m n d Hd) as [-> _]. eauto.
Qed.

Lemma getspline_re_result l m n w :
  coherent w ->
  exists w1, _getspline "omega" "re" l m n reomega_ref w
             = (loaded "omega" "re" l m n, w1) /\ coherent w1.
Proof.
  intros Hw. pose proof (getspline_re_coherent l m n w Hw) as Hc.
  rewrite getspline_run in *. cbn [deref] in *.
  destruct (_reomega_splines w !! (l, Z.abs m, n)) as [s|] eqn:Hk.
  - destruct Hw as [Hre Him]. destruct (Hre _ _ _ _ Hk) as [d [Hd ->]].
    rewrite mode_data_abs in Hd.
    destruct (loaded_data l m n d Hd) as [-> _]. by eexists.
  - destruct (loaded "omega" "re" l m n); by eexists.
Qed.

Lemma getspline_im_result l m n w :
  coherent w ->
  exists w1, _getspline "omega" "im" l m n imomega_ref w
             = (loaded "omega" "im" l m n, w1) /\ coherent w1.
Proof.
  intros Hw. pose proof (getspline_im_coherent l m n w Hw) as Hc.
  rewrite getspline_run in *. cbn [deref] in *.
  destruct (_imomega_splines w !! (l, Z.abs m, n)) as [s|] eqn:Hk.
  - destruct Hw as [Hre Him]. destruct (Him _ _ _ _ Hk) as [d [Hd ->]].
    rewrite mode_data_abs in Hd.
    destruct (loaded_data l m n d Hd) as [_ ->]. by eexists.
  - destruct (loaded "omega" "im" l m n); by eexists.
Qed.

(** X1: what a public function returns or raises is the same in every
    world a program can reach through the public functions: the caches
    change how a result is obtained, never the result. *)
Theorem results_independent_of_history mass spin l m n w w' :
  reachable w -> reachable w' ->
  fst (kerr_omega spin l m n w) = fst (kerr_omega spin l m n w') /\
  fst (kerr_freq mass spin l m n w) = fst (kerr_freq mass spin l m n w') /\
  fst (kerr_tau mass spin l m n w) = fst (kerr_tau mass spin l m n w').
Proof.
  intros Hw%reachable_coherent Hw'%reachable_coherent.
  rewrite !kerr_omega_run, !kerr_freq_run, !kerr_tau_run.
  destruct (PrimFloat.ltb _ _); [done|].
  destruct (getspline_re_result l m n w Hw) as (w1 & -> & Hw1).
  destruct (getspline_re_result l m n w' Hw') as (w1' & -> & Hw1').
  destruct (getspline_im_result l m n w Hw) as (w2 & -> & _).
  destruct (getspline_im_result l m n w' Hw') as (w2' & -> & _).
  split_and!.
  - destruct (loaded "omega" "re" l m n); [|done].
    destruct (getspline_im_result l m n w1 Hw1) as (w3 & -> & _).
    destruct (getspline_im_result l m n w1' Hw1') as (w3' & -> & _).
    by destruct (loaded "omega" "im" l m n).
  - by destruct (loaded "omega" "re" l m n).
  - by destruct (loaded "omega" "im" l m n).
Qed.



(** X4: a public call that raises leaves both caches as they were, in any
    world: no spline is stored by a call that fails. *)
Theorem failure_keeps_caches mass spin l m n w e :
  (fst (kerr_omega spin l m n w) = Raise e ->
   _reomega_splines (snd (kerr_omega spin l m n w)) = _reomega_splines w /\
   _imomega_splines (snd (kerr_omega spin l m n w)) = _imomega_splines w) /\
  (fst (kerr_freq mass spin l m n w) = Raise e ->
   _reomega_splines (snd (kerr_freq mass spin l m n w)) = _reomega_splines w /\
   _imomega_splines (snd (kerr_freq mass spin l m n w)) = _imomega_splines w) /\
  (fst (kerr_tau mass spin l m n w) = Raise e ->
   _reomega_splines (snd (kerr_tau mass spin l m n w)) = _reomega_splines w /\
   _imomega_splines (snd (kerr_tau mass spin l m n w)) = _imomega_splines w).
Proof.
  rewrite kerr_omega_run, kerr_freq_run, kerr_tau_run.
  destruct (PrimFloat.ltb _ _); [done|].
  rewrite !getspline_run. cbn [deref].
  split_and!.
  - destruct (_reomega_splines w !! _) as [re|] eqn:Hre.
    + rewrite getspline_run. cbn [deref].
      destruct (_imomega_splines w !! _) as [im|]; [done|].
      by destruct (loaded "omega" "im" l m n).
    + destruct (loaded "omega" "re" l m n) as [re|e1] eqn:E1; [|done].
      rewrite getspline_run. cbn.
      destruct (_imomega_splines w !! _) as [im|]; [done|].
      destruct (proj1 (loaded_re_im l m n) (ex_intro _ re E1)) as [im ->].
      done.
  - destruct (_reomega_splines w !! _) as [re|]; [done|].
    by destruct (loaded "omega" "re" l m n).
  - destruct (_imomega_splines w !! _) as [im|]; [done|].
    by destruct (loaded "omega" "im" l m n).
Qed.

(** ** Warm caches and the files that are read *)

Lemma getspline_hit name reim l m n d w s :
  deref d w !! (l, Z.abs m, n) = Some s ->
  _getspline name reim l m n d w = (Ok s, w).
Proof. intros H. by rewrite getspline_run, H. Qed.

Lemma getspline_ok_cached name reim l m n d w s w1 :
  _getspline name reim l m n d w = (Ok s, w1) ->
  deref d w1 !! (l, Z.abs m, n) = Some s.
Proof.
  rewrite getspline_run.
  destruct (deref d w !! _) as [s'|] eqn:Hd; [by intros [= <- <-]|].
  destruct (loaded name reim l m n) as [s'|e]; [|done].
  intros [= <- <-]. by rewrite deref_assign, lookup_insert_eq.
Qed.

(** X5: once [kerr_omega] has returned a value for a mode, and whatever
    public calls follow, a call of any of the three functions for the same
    [l] and [n], for [m] or [-m] and for any spin within the bound returns
    a value and leaves the world as it is: no table file is requested
    again. *)
Theorem kerr_omega_warms_caches spin l m n w z w1 cs mass spin' m' :
  kerr_omega spin l m n w = (Ok z, w1) ->
  Z.abs m' = Z.abs m ->
  PrimFloat.ltb MAX_SPIN (PrimFloat.abs spin') = false ->
  (exists z', kerr_omega spin' l m' n (run cs w1) = (Ok z', run cs w1)) /\
  (exists f, kerr_freq mass spin' l m' n (run cs w1) = (Ok f, run cs w1)) /\
  (exists t, kerr_tau mass spin' l m' n (run cs w1) = (Ok t, run cs w1)).
Proof.
  rewrite kerr_omega_run. destruct (PrimFloat.ltb _ _); [done|].
  destruct (_getspline _ _ _ _ _ reomega_ref w) as [[re|e] wa] eqn:Ere; [|done].
  destruct (_getspline _ _ _ _ _ imomega_ref wa) as [[im|e] wb] eqn:Eim; [|done].
  intros [= _ <-] Hm Hs.
  assert (Hre : deref reomega_ref (run cs wb) !! (l, Z.abs m', n) = Some re).
  { rewrite Hm. apply run_keeps.
    replace wb with (snd (_getspline "omega" "im" l m n imomega_ref wa))
      by by rewrite Eim.
    apply getspline_keeps.
    by apply (getspline_ok_cached _ _ _ _ _ _ _ _ _ Ere). }
  assert (Him : deref imomega_ref (run cs wb) !! (l, Z.abs m', n) = Some im).
  { rewrite Hm. apply run_keeps.
    by apply (getspline_ok_cached _ _ _ _ _ _ _ _ _ Eim). }
  rewrite kerr_omega_run, kerr_freq_run, kerr_tau_run, Hs.
  rewrite (getspline_hit "omega" "re" l m' n _ _ _ Hre).
  rewrite (getspline_hit "omega" "im" l m' n _ _ _ Him).
  split_and!; by eexists.
Qed.

Lemma getspline_requested name reim l m n d w :
  requested (snd (_getspline name reim l m n d w))
  = requested w ++
    match deref d w !! (l, Z.abs m, n) with
    | Some _ => []
    | None => [resource_name l]
    end.
Proof.
  rewrite getspline_run.
  destruct (deref d w !! _); cbn; [by rewrite app_nil_r|].
  destruct (loaded name reim l m n); [by destruct d|done].
Qed.

Ltac requested_times k :=
  exists k; split; [lia | cbn; by rewrite ?app_nil_r].

(** X6: a public call requests no other resource than the table file of
    its [l], at most twice for [kerr_omega] and at most once for
    [kerr_freq] and [kerr_tau], and keeps the log of earlier requests; a
    [kerr_omega] that finds neither spline cached and whose data exist
    requests the file twice, once for each part. *)
Theorem requests_of_a_call mass spin l m n w :
  (exists k, (k <= 2)%nat /\
     requested (snd (kerr_omega spin l m n w))
     = requested w ++ replicate k (resource_name l)) /\
  (exists k, (k <= 1)%nat /\
     requested (snd (kerr_freq mass spin l m n w))
     = requested w ++ replicate k (resource_name l)) /\
  (exists k, (k <= 1)%nat /\
     requested (snd (kerr_tau mass spin l m n w))
     = requested w ++ replicate k (resource_name l)) /\
  (PrimFloat.ltb MAX_SPIN (PrimFloat.abs spin) = false ->
   is_Some (mode_data l m n) ->
   _reomega_splines w !! (l, Z.abs m, n) = None ->
   _imomega_splines w !! (l, Z.abs m, n) = None ->
   requested (snd (kerr_omega spin l m n w))
   = requested w ++ [resource_name l; resource_name l]).
Proof.
  rewrite kerr_omega_run, kerr_freq_run, kerr_tau_run.
  pose proof (getspline_requested "omega" "re" l m n reomega_ref w) as Hre.
  pose proof (getspline_requested "omega" "im" l m n imomega_ref w) as Him.
  split_and!.
  - destruct (PrimFloat.ltb _ _); [requested_times 0%nat|].
    destruct (_getspline _ _ _ _ _ reomega_ref w) as [[re|e] w1]; cbn in Hre.
    + pose proof (getspline_requested "omega" "im" l m n imomega_ref w1) as H1.
      rewrite Hre, <- app_assoc in H1.
      destruct (_getspline _ _ _ _ _ imomega_ref w1) as [[im|e] w2];
        cbn in H1 |- *; rewrite H1;
        destruct (_reomega_splines w !! _), (_imomega_splines w1 !! _);
        first [requested_times 0%nat | requested_times 1%nat
              | requested_times 2%nat].
    + cbn. rewrite Hre. destruct (_reomega_splines w !! _);
        first [requested_times 0%nat | requested_times 1%nat].
  - destruct (PrimFloat.ltb _ _); [requested_times 0%nat|].
    destruct (_getspline _ _ _ _ _ reomega_ref w) as [[re|e] w1];
      cbn in Hre |- *; rewrite Hre; destruct (_reomega_splines w !! _);
      first [requested_times 0%nat | requested_times 1%nat].
  - destruct (PrimFloat.ltb _ _); [requested_times 0%nat|].
    destruct (_getspline _ _ _ _ _ imomega_ref w) as [[im|e] w1];
      cbn in Him |- *; rewrite Him; destruct (_imomega_splines w !! _);
      first [requested_times 0%nat | requested_times 1%nat].
  - intros -> [d Hd] Hcre Hcim.
    destruct (loaded_data l m n d Hd) as [Hlre Hlim].
    rewrite !getspline_run. cbn [deref]. rewrite Hcre, Hlre.
    rewrite getspline_run. cbn. rewrite Hcim, Hlim. cbn.
    by rewrite <- app_assoc.
Qed.

(** ** Spin symmetry of frequency and damping time at [m = 0] *)

(** X10: for [m = 0], [kerr_freq] and [kerr_tau] do the same at [-spin] as
    at [spin], in any world and whether they return or raise: the same
    result and the same world afterwards. *)
Theorem m0_spin_symmetry mass spin l n w :
  kerr_freq mass (- spin) l 0 n w = kerr_freq mass spin l 0 n w /\
  kerr_tau mass (- spin) l 0 n w = kerr_tau mass spin l 0 n w.
Proof.
  rewrite !kerr_freq_run, !kerr_tau_run, abs_opp.
  unfold effective_spin. cbn. by rewrite abs_opp.
Qed.

(** ** More binary64 arithmetic *)

Lemma shr_fexp_canonical m e :
  canonical_mantissa prec emax m e = true ->
  shr_fexp prec emax (Zpos m) e loc_Exact
  = (Build_shr_record (Zpos m) false false, e).
Proof.
  unfold canonical_mantissa, shr_fexp. intros H%Z.eqb_eq.
  cbn [Zdigits2]. rewrite H, Z.sub_diag. reflexivity.
Qed.

Lemma digits2_pos_scaled m :
  Zpos (digits2_pos (4503599627370496 * m)) = Zpos (digits2_pos m) + 52.
Proof.
  assert (H : forall p q, digits2_pos (p~0 * q) = Pos.succ (digits2_pos (p * q)))
    by reflexivity.
  rewrite !H, !Pos2Z.inj_succ, Pos.mul_1_l. lia.
Qed.

Lemma shr_fexp_scaled m e :
  canonical_mantissa prec emax m e = true ->
  shr_fexp prec emax (Zpos (4503599627370496 * m)) (-52 + e) loc_Exact
  = (Build_shr_record (Zpos m) false false, e).
Proof.
  unfold canonical_mantissa, shr_fexp. intros H%Z.eqb_eq.
  cbn [Zdigits2].
  assert (Hd : Zpos (digits2_pos (4503599627370496 * m)) + (-52 + e)
               = Zpos (digits2_pos m) + e).
  { rewrite digits2_pos_scaled. lia. }
  rewrite Hd, H.
  replace (e - (-52 + e)) with 52 by lia.
  unfold shr. replace (-52 + e + 52) with e by lia. reflexivity.
Qed.

Lemma SFmul_one_l x :
  valid_binary x = true ->
  SFmul prec emax (S754_finite false 4503599627370496 (-52)) x = x.
Proof.
  destruct x as [s|s| |s m e]; try reflexivity.
  cbn [valid_binary]. unfold bounded. intros [Hc He]%andb_true_iff.
  unfold SFmul, binary_round_aux. cbn [xorb].
  rewrite (shr_fexp_scaled m e Hc).
  cbn [shr_m loc_of_shr_record round_nearest_even].
  rewrite (shr_fexp_canonical m e Hc). cbn [shr_m].
  fold (Z.sub emax prec). by rewrite He.
Qed.

Lemma mul_1_l x : (1 * x = x)%float.
Proof.
  apply Prim2SF_inj. rewrite mul_spec.
  change (Prim2SF 1) with (S754_finite false 4503599627370496 (-52)).
  apply SFmul_one_l, Prim2SF_valid.
Qed.


Lemma SFmul_opp_r x y :
  SFmul prec emax x (SFopp y) = SFopp (SFmul prec emax x y).
Proof.
  destruct x as [sx|sx| |sx mx ex], y as [sy|sy| |sy my ey]; try reflexivity;
    try (destruct sx, sy; reflexivity).
  unfold SFmul, SFopp at 1. rewrite SFopp_binary_round_aux.
  destruct sx, sy; reflexivity.
Qed.

Lemma SFdiv_opp_l x y :
  SFdiv prec emax (SFopp x) y = SFopp (SFdiv prec emax x y).
Proof.
  destruct x as [sx|sx| |sx mx ex], y as [sy|sy| |sy my ey]; try reflexivity;
    try (destruct sx, sy; reflexivity).
  unfold SFdiv, SFopp at 1.
  destruct (SFdiv_core_binary prec emax _ _ _ _) as [[mz ez] lz].
  rewrite SFopp_binary_round_aux. destruct sx, sy; reflexivity.
Qed.

Lemma SFdiv_opp_r x y :
  SFdiv prec emax x (SFopp y) = SFopp (SFdiv prec emax x y).
Proof.
  destruct x as [sx|sx| |sx mx ex], y as [sy|sy| |sy my ey]; try reflexivity;
    try (destruct sx, sy; reflexivity).
  unfold SFdiv, SFopp at 1.
  destruct (SFdiv_core_binary prec emax _ _ _ _) as [[mz ez] lz].
  rewrite SFopp_binary_round_aux. destruct sx, sy; reflexivity.
Qed.

Lemma opp_involutive x : (- - x = x)%float.
Proof. apply Prim2SF_inj. by rewrite !opp_spec, SFopp_involutive. Qed.

Lemma mul_opp_l x y : (- x * y = - (x * y))%float.
Proof. apply Prim2SF_inj. rewrite opp_spec, !mul_spec, opp_spec. apply SFmul_opp_l. Qed.

Lemma mul_opp_r x y : (x * - y = - (x * y))%float.
Proof. apply Prim2SF_inj. rewrite opp_spec, !mul_spec, opp_spec. apply SFmul_opp_r. Qed.

Lemma div_opp_l x y : (- x / y = - (x / y))%float.
Proof. apply Prim2SF_inj. rewrite opp_spec, !div_spec, opp_spec. apply SFdiv_opp_l. Qed.

Lemma div_opp_r x y : (x / - y = - (x / y))%float.
Proof. apply Prim2SF_inj. rewrite opp_spec, !div_spec, opp_spec. apply SFdiv_opp_r. Qed.

Lemma mul_neg_1_l x : ((-1) * x = - x)%float.
Proof.
  apply Prim2SF_inj. rewrite opp_spec, mul_spec.
  change (Prim2SF (-1)) with (SFopp (Prim2SF 1)).
  unfold SF64mul. rewrite SFmul_opp_l. f_equal.
  rewrite <- (mul_1_l x) at 2. by rewrite mul_spec.
Qed.

Lemma shr_1_nonneg mrs : 0 <= shr_m mrs -> 0 <= shr_m (shr_1 mrs).
Proof.
  destruct mrs as [[|[p|p|]|p] r s]; cbn; lia.
Qed.

Lemma iter_shr_1_nonneg p mrs :
  0 <= shr_m mrs -> 0 <= shr_m (iter_pos shr_1 p mrs).
Proof.
  revert mrs. induction p as [p IH|p IH|]; intros mrs H; cbn.
  - apply IH, IH. by apply shr_1_nonneg.
  - by apply IH, IH.
  - by apply shr_1_nonneg.
Qed.

Lemma shr_fexp_nonneg m e l :
  0 <= m -> 0 <= shr_m (fst (shr_fexp prec emax m e l)).
Proof.
  intros Hm. unfold shr_fexp, shr.
  assert (H0 : 0 <= shr_m (shr_record_of_loc m l)) by by destruct l as [|[]].
  destruct (fexp prec emax (Zdigits2 m + e) - e); cbn [fst]; [done| |done].
  by apply iter_shr_1_nonneg.
Qed.

Lemma round_nearest_even_nonneg m l : 0 <= m -> 0 <= round_nearest_even m l.
Proof.
  intros Hm. destruct l as [|[]]; cbn; [done| |done|lia].
  destruct (Z.even m); lia.
Qed.

Lemma binary_round_aux_signed s m e l :
  0 <= m -> signed_as s (binary_round_aux prec emax s m e l).
Proof.
  intros Hm. unfold binary_round_aux.
  pose proof (shr_fexp_nonneg m e l Hm) as H1.
  destruct (shr_fexp prec emax m e l) as [mrs e']. cbn [fst] in H1.
  pose proof (shr_fexp_nonneg _ e' loc_Exact
                (round_nearest_even_nonneg _ (loc_of_shr_record mrs) H1)) as H2.
  destruct (shr_fexp prec emax _ e' loc_Exact) as [mrs' e'']. cbn [fst] in H2.
  destruct (shr_m mrs') as [|p|p]; [done| |lia].
  by destruct (e'' <=? emax - prec).
Qed.

Lemma SFdiv_core_nonneg m1 e1 m2 e2 :
  0 <= fst (fst (SFdiv_core_binary prec emax (Zpos m1) e1 (Zpos m2) e2)).
Proof.
  unfold SFdiv_core_binary.
  set (s := _ - _ - _).
  assert (Hm : 0 <= match s with Zpos _ => Z.shiftl (Zpos m1) s | Z0 => Zpos m1 | Zneg _ => 0 end).
  { destruct s; [lia| |lia]. by apply Z.shiftl_nonneg. }
  revert Hm. generalize (match s with Zpos _ => Z.shiftl (Zpos m1) s | Z0 => Zpos m1 | Zneg _ => 0 end).
  intros m' Hm.
  pose proof (Z.div_pos m' (Zpos m2) Hm ltac:(lia)) as Hq.
  unfold Z.div in Hq. by destruct (Z.div_eucl m' (Zpos m2)) as [q r].
Qed.

(** ** The spins that pass the check *)

Lemma SF_within_bound M E X :
  SFltb (S754_finite false M E) (SFabs X) = false <->
  X = S754_nan \/
  (SFleb (S754_finite true M E) X = true /\
   SFleb X (S754_finite false M E) = true).
Proof.
  unfold SFltb, SFleb.
  destruct X as [s|s| |s m e]; cbn [SFabs SFcompare].
  - destruct s; intuition congruence.
  - destruct s; intuition congruence.
  - intuition congruence.
  - destruct s.
    + destruct (E ?= e), (Pos.compare_cont Eq M m); cbn; intuition congruence.
    + rewrite (Z.compare_antisym E e).
      replace (Pos.compare_cont Eq m M)
        with (CompOpp (Pos.compare_cont Eq M m))
        by apply (Pos.compare_cont_antisym M m Eq).
      destruct (E ?= e), (Pos.compare_cont Eq M m); cbn; intuition congruence.
Qed.

(** X7: [_checkspin] lets a spin pass exactly when it is a NaN or lies in
    the closed interval from [-MAX_SPIN] to [MAX_SPIN], both ends
    included. *)
Theorem checkspin_accepts spin w :
  fst (_checkspin spin w) = Ok tt <->
  Py.is_nan spin = true \/
  (PrimFloat.leb (- MAX_SPIN) spin = true /\
   PrimFloat.leb spin MAX_SPIN = true).
Proof.
  rewrite checkspin_run, is_nan_spec, !leb_spec, opp_spec.
  assert (Hmax : exists M E, Prim2SF MAX_SPIN = S754_finite false M E)
    by (vm_compute; eauto).
  destruct Hmax as (M & E & HM). rewrite HM. cbn [SFopp negb].
  rewrite <- SF_within_bound, <- HM, <- abs_spec, <- ltb_spec.
  by destruct (PrimFloat.ltb _ _).
Qed.

(** ** Signs *)

(** X8: in reachable worlds, for a spin within the bound and a mode with
    [m <> 0] whose data exist, [kerr_freq(mass, s, l, -m, n)] is the
    opposite of [kerr_freq(mass, s, l, m, n)], bit for bit. *)
Theorem kerr_freq_negative_m mass spin l m n d w w' :
  reachable w -> reachable w' ->
  PrimFloat.ltb MAX_SPIN (PrimFloat.abs spin) = false ->
  m <> 0 ->
  mode_data l m n = Some d ->
  exists f,
    fst (kerr_freq mass spin l m n w) = Ok f /\
    fst (kerr_freq mass spin l (- m) n w') = Ok (- f)%float.
Proof.
  intros Hw Hw' Hs Hm Hd. eexists. split; [by apply kerr_freq_value|].
  rewrite <- (mode_data_opp l m n) in Hd.
  rewrite (kerr_freq_value mass spin l (- m) n d w' Hw' Hs Hd),
    effective_spin_opp.
  f_equal. destruct (sign_of_opp m Hm) as [[-> ->]|[-> ->]].
  - by rewrite mul_neg_one, div_opp_l.
  - by rewrite mul_neg_one, div_opp_l, opp_involutive.
Qed.

(** X9: the opposite mass gives the opposite frequency and the opposite
    damping time, bit for bit, in any world: a negative mass is computed
    with like a positive one. *)
Theorem negative_mass_flips_sign mass spin l m n w :
  (forall f, fst (kerr_freq mass spin l m n w) = Ok f ->
             fst (kerr_freq (- mass) spin l m n w) = Ok (- f)%float) /\
  (forall t, fst (kerr_tau mass spin l m n w) = Ok t ->
             fst (kerr_tau (- mass) spin l m n w) = Ok (- t)%float).
Proof.
  rewrite !kerr_freq_run, !kerr_tau_run.
  destruct (PrimFloat.ltb _ _); [done|]. split.
  - destruct (_getspline _ _ _ _ _ reomega_ref w) as [[re|e] w1]; [|done].
    intros f [= <-]. cbn. by rewrite mul_opp_r, mul_opp_l, div_opp_r.
  - destruct (_getspline _ _ _ _ _ imomega_ref w) as [[im|e] w1]; [|done].
    intros t [= <-]. cbn. by rewrite !mul_opp_l, !div_opp_l.
Qed.

(** X11: with a mass of zero [kerr_freq] never returns a finite number (it
    divides by zero: the result is an infinity or a NaN), and [kerr_tau]
    returns a zero or a NaN; neither raises because of the mass. *)
Theorem zero_mass spin l m n w :
  (forall f, fst (kerr_freq 0 spin l m n w) = Ok f ->
             PrimFloat.ltb (PrimFloat.abs f) infinity = false) /\
  (forall t, fst (kerr_tau 0 spin l m n w) = Ok t ->
             PrimFloat.eqb t 0 = true \/ Py.is_nan t = true).
Proof.
  rewrite kerr_freq_run, kerr_tau_run.
  destruct (PrimFloat.ltb MAX_SPIN _); [done|]. split.
  - destruct (_getspline _ _ _ _ _ reomega_ref w) as [[re|e] w1]; [|done].
    intros f [= <-].
    change (2 * Py.pi * 0 * MTSUN)%float with 0%float.
    rewrite ltb_spec, abs_spec, div_spec.
    change (Prim2SF 0) with (S754_zero false).
    by destruct (Prim2SF _) as [[]|[]| |[]].
  - destruct (_getspline _ _ _ _ _ imomega_ref w) as [[im|e] w1]; [|done].
    intros t [= <-].
    rewrite is_nan_spec, FloatAxioms.eqb_spec, div_spec.
    destruct (Prim2SF (im _)) as [[]|[]| |[]]; vm_compute; auto.
Qed.

Lemma SFmul_signed sx mx ex sy my ey :
  signed_as (xorb sx sy)
    (SFmul prec emax (S754_finite sx mx ex) (S754_finite sy my ey)).
Proof. by apply binary_round_aux_signed. Qed.

Lemma SFdiv_signed sx mx ex sy my ey :
  signed_as (xorb sx sy)
    (SFdiv prec emax (S754_finite sx mx ex) (S754_finite sy my ey)).
Proof.
  unfold SFdiv. pose proof (SFdiv_core_nonneg mx ex my ey) as H.
  destruct (SFdiv_core_binary prec emax _ _ _ _) as [[mz ez] lz].
  by apply binary_round_aux_signed.
Qed.

Lemma signed_nonneg x : signed_as false x -> SFleb (S754_zero false) x = true.
Proof. destruct x as [s|s| |s m e]; cbn; by intros; subst. Qed.

Lemma SFtau_nonneg M m0 e0 I :
  SFltb (S754_zero false) M = true ->
  SFltb I (S754_zero false) = true ->
  SFltb (S754_infinity true) I = true ->
  SFleb (S754_zero false)
    (SFdiv prec emax (SFmul prec emax (SFopp M) (S754_finite false m0 e0)) I)
  = true.
Proof.
  destruct M as [[]|[]| |[] m e]; try done;
    destruct I as [[]|[]| |[] mi ei]; try done; intros _ _ _.
  pose proof (SFmul_signed true m e false m0 e0) as HP.
  change (SFopp (S754_finite false m e)) with (S754_finite true m e).
  destruct (SFmul prec emax _ _) as [sp|sp| |sp mp ep]; cbn in HP;
    [by subst sp..|done|subst sp].
  apply signed_nonneg, (SFdiv_signed true mp ep true mi ei).
Qed.

(** X12: in a reachable world, for a spin within the bound and a mode whose
    data exist, a positive mass and a negative, finite value of the
    interpolant of the imaginary part give a damping time that is a number
    and is not negative. *)
Theorem kerr_tau_nonnegative mass spin l m n d w :
  reachable w ->
  PrimFloat.ltb MAX_SPIN (PrimFloat.abs spin) = false ->
  mode_data l m n = Some d ->
  PrimFloat.ltb 0 mass = true ->
  PrimFloat.ltb (Im_interpolant d (effective_spin spin m)) 0 = true ->
  PrimFloat.ltb neg_infinity (Im_interpolant d (effective_spin spin m)) = true ->
  exists t, fst (kerr_tau mass spin l m n w) = Ok t /\
            PrimFloat.leb 0 t = true.
Proof.
  intros Hw Hs Hd Hmass Hneg Hfin. eexists. split; [by apply kerr_tau_value|].
  revert Hmass Hneg Hfin.
  rewrite !ltb_spec, leb_spec, div_spec, mul_spec, opp_spec.
  change (Prim2SF 0) with (S754_zero false).
  change (Prim2SF neg_infinity) with (S754_infinity true).
  assert (HT : exists m0 e0, Prim2SF MTSUN = S754_finite false m0 e0)
    by (vm_compute; eauto).
  destruct HT as (m0 & e0 & ->). apply SFtau_nonneg.
Qed.

(** ** The parts of [kerr_omega] and the interpolants *)

Lemma is_nan_opp x : Py.is_nan (- x) = Py.is_nan x.
Proof.
  apply Bool.eq_iff_eq_true. rewrite !is_nan_spec, opp_spec.
  destruct (Prim2SF x) as [[]|[]| |[]]; cbn; intuition congruence.
Qed.

Lemma finite_not_nan x :
  PrimFloat.ltb (PrimFloat.abs x) infinity = true -> Py.is_nan x = false.
Proof.
  rewrite is_nan_false, ltb_spec, abs_spec.
  by destruct (Prim2SF x) as [[]|[]| |[]].
Qed.

Lemma add_zero_eqb a z s :
  Prim2SF z = S754_zero s -> Py.is_nan a = false -> (a + z =? a)%float = true.
Proof.
  rewrite is_nan_false, FloatAxioms.eqb_spec, add_spec. intros -> Ha.
  unfold SF64add. destruct (SFadd_zero_r (Prim2SF a) s) as [[s' ->] | ->].
  - by destruct s', s.
  - by apply SFeqb_refl.
Qed.

Lemma real_j_mul_finite x :
  PrimFloat.ltb (PrimFloat.abs x) infinity = true ->
  exists s, Prim2SF (0 * x - 1 * 0)%float = S754_zero s.
Proof.
  intros H. destruct (real_j_mul x) as [E|E]; [|done].
  exfalso. revert H E. rewrite ltb_spec, abs_spec, sub_spec, mul_spec.
  change (Prim2SF (1 * 0)%float) with (S754_zero false).
  change (Prim2SF 0%float) with (S754_zero false).
  by destruct (Prim2SF x) as [[]|[]| |[]].
Qed.

Lemma imag_j_mul x :
  Py.is_nan x = false -> (0 + (0 * 0 + 1 * x) =? x)%float = true.
Proof.
  rewrite mul_1_l, is_nan_false, FloatAxioms.eqb_spec, !add_spec.
  change (Prim2SF (0 * 0)%float) with (S754_zero false).
  change (Prim2SF 0%float) with (S754_zero false).
  destruct (Prim2SF x) as [[]|[]| |[] mx ex]; try done;
    intros _; by apply SFeqb_refl.
Qed.

Lemma imag_j_mul_nonzero x :
  (x =? 0)%float = false -> (0 + (0 * 0 + 1 * x))%float = x.
Proof.
  rewrite mul_1_l, FloatAxioms.eqb_spec. intros H.
  apply Prim2SF_inj. rewrite !add_spec. revert H.
  change (Prim2SF (0 * 0)%float) with (S754_zero false).
  change (Prim2SF 0%float) with (S754_zero false).
  by destruct (Prim2SF x) as [[]|[]| |[] mx ex].
Qed.

(** X13: in a reachable world, for a spin within the bound and a mode whose
    data exist, when the interpolant of the real part gives a number and
    the one of the imaginary part a finite number, the real part of
    [kerr_omega] compares equal to the value of the first, negated for
    [m < 0], and its imaginary part to the value of the second: numpy's
    complex product and sum do not change them. *)
Theorem kerr_omega_parts spin l m n d w :
  reachable w ->
  PrimFloat.ltb MAX_SPIN (PrimFloat.abs spin) = false ->
  mode_data l m n = Some d ->
  Py.is_nan (Re_interpolant d (effective_spin spin m)) = false ->
  PrimFloat.ltb (PrimFloat.abs (Im_interpolant d (effective_spin spin m)))
    infinity = true ->
  exists z,
    fst (kerr_omega spin l m n w) = Ok z /\
    PrimFloat.eqb (Py.real z)
      (if (m <? 0)%Z then - Re_interpolant d (effective_spin spin m)
       else Re_interpolant d (effective_spin spin m)) = true /\
    PrimFloat.eqb (Py.imag z) (Im_interpolant d (effective_spin spin m)) = true.
Proof.
  intros Hw Hs Hd Hre Him. eexists. split; [by apply kerr_omega_value|].
  cbn [Py.real Py.imag Py.add Py.mul Py.of_float Py.j].
  destruct (real_j_mul_finite _ Him) as [s Hz]. split.
  - unfold sign_of. destruct (m <? 0).
    + rewrite mul_neg_1_l. apply (add_zero_eqb _ _ s Hz).
      by rewrite is_nan_opp.
    + rewrite mul_1_l. by apply (add_zero_eqb _ _ s Hz).
  - by apply imag_j_mul, finite_not_nan.
Qed.

(** X14: in reachable worlds, for a spin within the bound and a mode whose
    data exist, when the interpolant of the imaginary part does not give a
    zero, [kerr_tau(mass, spin, l, m, n)] is
    [-mass*MTSUN / Im(kerr_omega(spin, l, m, n))], bit for bit. *)
Theorem kerr_tau_of_kerr_omega mass spin l m n d w w' :
  reachable w -> reachable w' ->
  PrimFloat.ltb MAX_SPIN (PrimFloat.abs spin) = false ->
  mode_data l m n = Some d ->
  PrimFloat.eqb (Im_interpolant d (effective_spin spin m)) 0 = false ->
  exists t z,
    fst (kerr_tau mass spin l m n w) = Ok t /\
    fst (kerr_omega spin l m n w') = Ok z /\
    t = (- mass * MTSUN / Py.imag z)%float.
Proof.
  intros Hw Hw' Hs Hd Him. eexists _, _. split_and!.
  - by apply kerr_tau_value.
  - by apply kerr_omega_value.
  - cbn [Py.real Py.imag Py.add Py.mul Py.of_float Py.j].
    by rewrite imag_j_mul_nonzero.
Qed.

(** ** The names of the groups *)

Lemma pretty_N_go_app x s t :
  pretty_N_go x s +:+ t = pretty_N_go x (s +:+ t).
Proof.
  revert s. induction (N.lt_wf_0 x) as [x _ IH]; intros s.
  destruct (decide (x = 0)%N) as [->|Hx]; [by rewrite !pretty_N_go_0|].
  rewrite (pretty_N_go_step x s), (pretty_N_go_step x (s +:+ t)) by lia.
  rewrite IH; [reflexivity|].
  apply N.div_lt; lia.
Qed.

Lemma pretty_Z_positive z :
  0 < z -> pretty z = pretty_N_go (Z.to_N z) "".
Proof. destruct z as [|p|p]; [lia| |lia]. intros _. done. Qed.

Lemma pretty_shifted_digit m d :
  1 <= m -> 0 <= d <= 9 ->
  pretty (10 * m + 1) +:+ pretty d = pretty m +:+ pretty (10 + d).
Proof.
  intros Hm Hd.
  rewrite (pretty_Z_positive (10 * m + 1)), (pretty_Z_positive m) by lia.
  replace (Z.to_N (10 * m + 1)) with (10 * Z.to_N m + 1)%N by lia.
  rewrite pretty_N_go_step by lia.
  replace ((10 * Z.to_N m + 1) `div` 10)%N with (Z.to_N m)
    by (apply (N.div_unique _ _ _ 1); lia).
  replace ((10 * Z.to_N m + 1) `mod` 10)%N with 1%N
    by (apply (N.mod_unique _ _ (Z.to_N m)); lia).
  rewrite !pretty_N_go_app.
  assert (d = 0 \/ d = 1 \/ d = 2 \/ d = 3 \/ d = 4 \/ d = 5 \/ d = 6
          \/ d = 7 \/ d = 8 \/ d = 9) as Hcases by lia.
  repeat (destruct Hcases as [->|Hcases]; [reflexivity|]). by subst d.
Qed.

(** X15: the name of a group is the digits of [l], [abs(m)] and [n] put
    together, which does not tell where [m] ends: for [m >= 1] and a digit
    [d], the loader does the same for the modes [(l, m, 10 + d)] and
    [(l, 10*m + 1, d)], and so [kerr_omega] returns or raises the same for
    both in reachable worlds. *)
Theorem overtone_ten_collides name reim spin l m d w w1 w2 :
  1 <= m -> 0 <= d <= 9 ->
  reachable w1 -> reachable w2 ->
  _create_spline name reim l m (10 + d) w
  = _create_spline name reim l (10 * m + 1) d w /\
  fst (kerr_omega spin l m (10 + d) w1)
  = fst (kerr_omega spin l (10 * m + 1) d w2).
Proof.
  intros Hm Hd Hw1%reachable_coherent Hw2%reachable_coherent.
  pose proof (pretty_shifted_digit m d Hm Hd) as Hname.
  assert (Hload : forall name reim w,
            _create_spline name reim l m (10 + d) w
            = _create_spline name reim l (10 * m + 1) d w).
  { intros name' reim' w'. unfold _create_spline.
    rewrite !Z.abs_eq by lia. by rewrite Hname. }
  split; [apply Hload|].
  assert (Hl : forall reim, loaded "omega" reim l m (10 + d)
                            = loaded "omega" reim l (10 * m + 1) d).
  { intros reim'. unfold loaded. by rewrite Hload. }
  rewrite !kerr_omega_run.
  destruct (PrimFloat.ltb _ _); [done|].
  destruct (getspline_re_result l m (10 + d) w1 Hw1) as (wa & -> & Hwa).
  destruct (getspline_re_result l (10 * m + 1) d w2 Hw2) as (wb & -> & Hwb).
  rewrite Hl. destruct (loaded "omega" "re" _ _ _); [|done].
  destruct (getspline_im_result l m (10 + d) wa Hwa) as (wc & -> & _).
  destruct (getspline_im_result l (10 * m + 1) d wb Hwb) as (wd & -> & _).
  rewrite Hl. destruct (loaded "omega" "im" _ _ _); [|done].
  cbn [fst]. unfold sign_of, effective_spin.
  destruct (Z.ltb_spec m 0), (Z.ltb_spec (10 * m + 1) 0); try lia.
  destruct (Z.eqb_spec m 0), (Z.eqb_spec (10 * m + 1) 0); try lia.
  done.
Qed.

End qnm.

(** ** The theorems at work on the small package *)

Lemma initial_reachable : reachable demo_package polyline initial_world.
Proof. by exists []. Qed.

Lemma kerr_omega_negative_m_witness :
  exists z z',
    fst (kerr_omega demo_package polyline 0.5 2 2 0 initial_world) = Ok z /\
    fst (kerr_omega demo_package polyline 0.5 2 (-2) 0
           (run demo_package polyline [call_omega 0.5 2 2 0] initial_world))
    = Ok z' /\
    Py.imag z' = Py.imag z /\
    PrimFloat.eqb (Py.real z') (- Py.real z) = true.
Proof.
  destruct (kerr_omega_negative_m demo_package polyline 0.5 2 2 0
              (demo_spins, demo_omega_220) initial_world
              (run demo_package polyline [call_omega 0.5 2 2 0] initial_world))
    as (z & z' & Hz & Hz' & Him & Hre).
  - by exists [].
  - by exists [call_omega 0.5 2 2 0].
  - reflexivity.
  - lia.
  - vm_compute. reflexivity.
  - exists z, z'. split_and!; [exact Hz|exact Hz'|exact Him|].
    apply Hre. vm_compute in Hz. injection Hz as <-. reflexivity.
Defined.

(** C1, as stated, fails: at spin 0.5 the imaginary part of omega for
    (l, m, n) = (2, -2, 0) is the one for (2, 2, 0), not its opposite. *)
Lemma kerr_omega_imag_not_negated :
  PrimFloat.ltb MAX_SPIN (PrimFloat.abs 0.5) = false /\
  is_Some (mode_data demo_package 2 2 0) /\
  exists z z',
    fst (kerr_omega demo_package polyline 0.5 2 2 0 initial_world) = Ok z /\
    fst (kerr_omega demo_package polyline 0.5 2 (-2) 0 initial_world) = Ok z' /\
    Py.imag z = (-0.0856)%float /\
    Py.imag z' = (-0.0856)%float /\
    PrimFloat.eqb (Py.imag z') (- Py.imag z) = false.
Proof.
  split; [reflexivity|]. split; [by eexists|].
  eexists _, _. split_and!; vm_compute; reflexivity.
Qed.

Lemma create_spline_failures_witness :
  fst (_create_spline demo_package polyline "omega" "re" 99 99 0 initial_world)
  = Raise (ValueError "unsupported lmn 99990") /\
  fst (_create_spline demo_package polyline "omega" "both" 2 (-2) 0 initial_world)
  = Raise (ValueError "reim must be eiter 're' or 'im'") /\
  fst (kerr_omega demo_package polyline 0.1 99 99 0 initial_world)
  = Raise (ValueError "unsupported lmn 99990").
Proof.
  split_and!.
  - apply (create_spline_failures demo_package polyline "omega" "re" 99 99 0
             initial_world).
    vm_compute. reflexivity.
  - apply (proj1 (proj2 (create_spline_failures demo_package polyline
                           "omega" "both" 2 (-2) 0 initial_world))
             demo_l2 {[ "spin" := demo_spins; "omega" := demo_omega_220 ]}
             demo_spins demo_omega_220).
    all: try (vm_compute; reflexivity).
    all: intros H; discriminate H.
  - apply (create_spline_failures demo_package polyline "omega" "re" 99 99 0
             initial_world).
    + by exists [].
    + vm_compute. reflexivity.
Defined.

(** C2, as stated, fails: a selector that is neither 're' nor 'im' gives
    the same error for the modes (2,2,0) and (2,0,0), so the error does not
    identify the mode; and a mode whose group is missing from an existing
    table file does not give the "unsupported lmn" error. *)
Lemma create_spline_other_failures :
  fst (_create_spline demo_package polyline "omega" "both" 2 2 0 initial_world)
  = Raise (ValueError "reim must be eiter 're' or 'im'") /\
  fst (_create_spline demo_package polyline "omega" "both" 2 0 0 initial_world)
  = Raise (ValueError "reim must be eiter 're' or 'im'") /\
  fst (_create_spline demo_package polyline "omega" "re" 2 3 0 initial_world)
  = Raise (KeyError "230") /\
  fst (_create_spline demo_package polyline "omega" "both" 2 3 0 initial_world)
  = Raise (KeyError "230").
Proof. split_and!; vm_compute; reflexivity. Qed.

Lemma kerr_tau_formula_witness :
  fst (kerr_tau demo_package polyline 10 0.25 2 2 0 initial_world)
  = Ok (- 10 * MTSUN
        / Im_interpolant polyline (demo_spins, demo_omega_220) 0.25)%float /\
  fst (kerr_tau demo_package polyline 10 0.25 2 (-2) 0
         (run demo_package polyline [call_tau 10 0.25 2 2 0] initial_world))
  = fst (kerr_tau demo_package polyline 10 0.25 2 2 0 initial_world) /\
  _reomega_splines
    (snd (kerr_tau demo_package polyline 10 0.25 2 2 0 initial_world)) = ∅.
Proof.
  apply (kerr_tau_formula demo_package polyline 10 0.25 2 2 0
           (demo_spins, demo_omega_220) initial_world
           (run demo_package polyline [call_tau 10 0.25 2 2 0] initial_world)).
  - by exists [].
  - by exists [call_tau 10 0.25 2 2 0].
  - reflexivity.
  - vm_compute. reflexivity.
Defined.

Lemma kerr_freq_formula_witness :
  fst (kerr_freq demo_package polyline 10 0.25 2 (-2) 0 initial_world)
  = Ok (-1 * Re_interpolant polyline (demo_spins, demo_omega_220) 0.25
        / (2 * Py.pi * 10 * MTSUN))%float /\
  MTSUN = 4.925491025543576e-06%float /\
  _imomega_splines
    (snd (kerr_freq demo_package polyline 10 0.25 2 (-2) 0 initial_world)) = ∅.
Proof.
  apply (kerr_freq_formula demo_package polyline 10 0.25 2 (-2) 0
           (demo_spins, demo_omega_220) initial_world).
  - by exists [].
  - reflexivity.
  - vm_compute. reflexivity.
Defined.

Lemma kerr_omega_m0_abs_spin_witness :
  exists z,
    fst (kerr_omega demo_package polyline 0.5 2 0 0 initial_world) = Ok z /\
    fst (kerr_omega demo_package polyline (-0.5) 2 0 0
           (run demo_package polyline [call_omega 0.5 2 0 0] initial_world))
    = Ok z /\
    Py.eqb z z = true.
Proof.
  destruct (kerr_omega_m0_abs_spin demo_package polyline 0.5 2 0
              (demo_spins, demo_omega_200) initial_world
              (run demo_package polyline [call_omega 0.5 2 0 0] initial_world))
    as (z & Hz & Hz' & Hval & Heq).
  - by exists [].
  - by exists [call_omega 0.5 2 0 0].
  - reflexivity.
  - vm_compute. reflexivity.
  - exists z. split_and!; [exact Hz|exact Hz'|].
    apply Heq; rewrite Hval; vm_compute; reflexivity.
Defined.

Lemma getspline_cached_witness :
  _getspline demo_package polyline "omega" "re" 2 (-2) 0 reomega_ref
    initial_world = (Ok demo_respline_220, demo_world) /\
  _getspline demo_package polyline "omega" "re" 2 (-2) 0 reomega_ref demo_world
  = (Ok demo_respline_220, demo_world) /\
  _reomega_splines
    (run demo_package polyline
       [call_freq 1 0.3 2 0 0; call_omega 0.1 2 2 0; call_tau 1 2 2 2 0]
       demo_world)
  !! (2, 2, 0) = Some demo_respline_220.
Proof.
  assert (H : _getspline demo_package polyline "omega" "re" 2 (-2) 0
                reomega_ref initial_world = (Ok demo_respline_220, demo_world))
    by (vm_compute; reflexivity).
  destruct (getspline_cached demo_package polyline "omega" "re" 2 (-2) 0
              reomega_ref initial_world (Ok demo_respline_220) demo_world H)
    as (_ & _ & _ & _ & _ & _ & Hok).
  destruct (Hok demo_respline_220 eq_refl) as (_ & _ & Hlater).
  split_and!; [exact H| |].
  - apply (Hlater [] "omega" "re" (-2)). reflexivity.
  - apply (Hlater [call_freq 1 0.3 2 0 0; call_omega 0.1 2 2 0;
                   call_tau 1 2 2 2 0] "omega" "re" 2).
    reflexivity.
Defined.

Lemma kerr_freq_of_kerr_omega_witness :
  exists f z,
    fst (kerr_freq demo_package polyline 10 0.25 2 (-2) 0 initial_world) = Ok f /\
    fst (kerr_omega demo_package polyline 0.25 2 (-2) 0
           (run demo_package polyline [call_freq 10 0.25 2 (-2) 0] initial_world))
    = Ok z /\
    PrimFloat.eqb f (Py.real z / (2 * Py.pi * 10 * MTSUN)) = true.
Proof.
  destruct (kerr_freq_of_kerr_omega demo_package polyline 10 0.25 2 (-2) 0
              (demo_spins, demo_omega_220) initial_world
              (run demo_package polyline [call_freq 10 0.25 2 (-2) 0]
                 initial_world))
    as (f & z & Hf & Hz & _ & _ & Heq).
  - by exists [].
  - by exists [call_freq 10 0.25 2 (-2) 0].
  - reflexivity.
  - vm_compute. reflexivity.
  - exists f, z. split_and!; [exact Hf|exact Hz|].
    vm_compute in Hf, Hz. injection Hf as <-. injection Hz as <-.
    apply Heq; reflexivity.
Defined.

Lemma spin_error_keeps_world_witness :
  kerr_omega demo_package polyline 0.9998 2 2 0 demo_world
  = (Raise OutOfRangeSpin, demo_world) /\
  kerr_freq demo_package polyline 10 0.9998 2 2 0 demo_world
  = (Raise OutOfRangeSpin, demo_world) /\
  kerr_tau demo_package polyline 10 0.9998 2 2 0 demo_world
  = (Raise OutOfRangeSpin, demo_world).
Proof.
  apply (spin_error_keeps_world demo_package polyline 10 0.9998 2 2 0
           demo_world).
  reflexivity.
Defined.

(** ** Some values *)

Example kerr_omega_220 :
  fst (kerr_omega demo_package polyline 0.5 2 2 0 initial_world)
  = Ok (Py.Complex 0.4641 (-0.0856)).
Proof. vm_compute. reflexivity. Qed.

Example kerr_omega_210_without_omega :
  fst (kerr_omega demo_package polyline 0.5 2 1 0 initial_world)
  = Raise (KeyError "omega").
Proof. vm_compute. reflexivity. Qed.

(** A mass of zero is divided by like any other. *)
Example kerr_freq_mass_zero :
  fst (kerr_freq demo_package polyline 0 0.5 2 2 0 initial_world)
  = Ok infinity /\
  fst (kerr_tau demo_package polyline 0 0.5 2 2 0 initial_world)
  = Ok 0%float /\
  exists tau,
    fst (kerr_tau demo_package polyline (-10) 0.5 2 2 0 initial_world) = Ok tau
    /\ PrimFloat.ltb tau 0 = true.
Proof.
  split_and!; [vm_compute; reflexivity..|].
  eexists. split; vm_compute; reflexivity.
Qed.

(** ** The further properties at work on the small package *)

Lemma results_independent_of_history_witness :
  fst (kerr_omega demo_package polyline 0.5 2 2 0 initial_world)
  = fst (kerr_omega demo_package polyline 0.5 2 2 0 (run demo_package polyline
       [call_freq 1 0.3 2 0 0; call_omega 0.1 2 3 0; call_tau 1 0.2 2 2 0]
       initial_world)).
Proof.
  apply (results_independent_of_history demo_package polyline 1 0.5 2 2 0
           initial_world (run demo_package polyline
       [call_freq 1 0.3 2 0 0; call_omega 0.1 2 3 0; call_tau 1 0.2 2 2 0]
       initial_world)).
  - by exists [].
  - by exists [call_freq 1 0.3 2 0 0; call_omega 0.1 2 3 0; call_tau 1 0.2 2 2 0].
Defined.



Lemma failure_keeps_caches_witness :
  fst (kerr_omega demo_package polyline 0.5 2 3 0 demo_world)
  = Raise (KeyError "230") /\
  _reomega_splines (snd (kerr_omega demo_package polyline 0.5 2 3 0 demo_world))
  = _reomega_splines demo_world /\
  _imomega_splines (snd (kerr_omega demo_package polyline 0.5 2 3 0 demo_world))
  = _imomega_splines demo_world.
Proof.
  assert (H : fst (kerr_omega demo_package polyline 0.5 2 3 0 demo_world)
              = Raise (KeyError "230")) by (vm_compute; reflexivity).
  split; [exact H|].
  by apply (failure_keeps_caches demo_package polyline 1 0.5 2 3 0 demo_world
              (KeyError "230")).
Defined.

Lemma kerr_omega_warms_caches_witness :
  exists f,
    kerr_freq demo_package polyline 10 (-0.3) 2 (-2) 0
      (run demo_package polyline [call_tau 1 0.2 2 0 0]
         (snd (kerr_omega demo_package polyline 0.5 2 2 0 initial_world)))
    = (Ok f,
       run demo_package polyline [call_tau 1 0.2 2 0 0]
         (snd (kerr_omega demo_package polyline 0.5 2 2 0 initial_world))).
Proof.
  apply (kerr_omega_warms_caches demo_package polyline 0.5 2 2 0 initial_world
           (Py.Complex 0.4641 (-0.0856))
           (snd (kerr_omega demo_package polyline 0.5 2 2 0 initial_world))
           [call_tau 1 0.2 2 0 0] 10 (-0.3) (-2)).
  - vm_compute. reflexivity.
  - reflexivity.
  - reflexivity.
Defined.

Lemma requests_of_a_call_witness :
  requested (snd (kerr_omega demo_package polyline 0.5 2 2 0 initial_world))
  = ["data/l2.hdf"; "data/l2.hdf"].
Proof.
  apply (requests_of_a_call demo_package polyline 1 0.5 2 2 0 initial_world).
  - reflexivity.
  - vm_compute. by eexists.
  - reflexivity.
  - reflexivity.
Defined.

Lemma kerr_freq_negative_m_witness :
  exists f,
    fst (kerr_freq demo_package polyline 10 0.25 2 2 0 initial_world) = Ok f /\
    fst (kerr_freq demo_package polyline 10 0.25 2 (-2) 0 (run demo_package polyline
       [call_freq 1 0.3 2 0 0; call_omega 0.1 2 3 0; call_tau 1 0.2 2 2 0]
       initial_world))
    = Ok (- f)%float.
Proof.
  apply (kerr_freq_negative_m demo_package polyline 10 0.25 2 2 0
           (demo_spins, demo_omega_220) initial_world (run demo_package polyline
       [call_freq 1 0.3 2 0 0; call_omega 0.1 2 3 0; call_tau 1 0.2 2 2 0]
       initial_world)).
  - by exists [].
  - by exists [call_freq 1 0.3 2 0 0; call_omega 0.1 2 3 0; call_tau 1 0.2 2 2 0].
  - reflexivity.
  - lia.
  - vm_compute. reflexivity.
Defined.

Lemma negative_mass_flips_sign_witness :
  fst (kerr_tau demo_package polyline (-10) 0.25 2 2 0 initial_world)
  = Ok (- (- 10 * MTSUN
           / Im_interpolant polyline (demo_spins, demo_omega_220) 0.25))%float.
Proof.
  apply (negative_mass_flips_sign demo_package polyline 10 0.25 2 2 0
           initial_world).
  vm_compute. reflexivity.
Defined.

Lemma zero_mass_witness :
  fst (kerr_freq demo_package polyline 0 0.25 2 2 0 initial_world) = Ok infinity /\
  PrimFloat.ltb (PrimFloat.abs infinity) infinity = false.
Proof.
  assert (H : fst (kerr_freq demo_package polyline 0 0.25 2 2 0 initial_world)
              = Ok infinity) by (vm_compute; reflexivity).
  split; [exact H|].
  by apply (zero_mass demo_package polyline 0.25 2 2 0 initial_world).
Defined.

Lemma kerr_tau_nonnegative_witness :
  exists t,
    fst (kerr_tau demo_package polyline 10 0.25 2 2 0 initial_world) = Ok t /\
    PrimFloat.leb 0 t = true.
Proof.
  apply (kerr_tau_nonnegative demo_package polyline 10 0.25 2 2 0
           (demo_spins, demo_omega_220) initial_world).
  - by exists [].
  - reflexivity.
  - vm_compute. reflexivity.
  - reflexivity.
  - vm_compute. reflexivity.
  - vm_compute. reflexivity.
Defined.

Lemma kerr_omega_parts_witness :
  exists z,
    fst (kerr_omega demo_package polyline 0.25 2 (-2) 0 initial_world) = Ok z /\
    PrimFloat.eqb (Py.real z)
      (- Re_interpolant polyline (demo_spins, demo_omega_220) 0.25) = true /\
    PrimFloat.eqb (Py.imag z)
      (Im_interpolant polyline (demo_spins, demo_omega_220) 0.25) = true.
Proof.
  apply (kerr_omega_parts demo_package polyline 0.25 2 (-2) 0
           (demo_spins, demo_omega_220) initial_world).
  - by exists [].
  - reflexivity.
  - vm_compute. reflexivity.
  - vm_compute. reflexivity.
  - vm_compute. reflexivity.
Defined.

Lemma kerr_tau_of_kerr_omega_witness :
  exists t z,
    fst (kerr_tau demo_package polyline 10 0.25 2 2 0 initial_world) = Ok t /\
    fst (kerr_omega demo_package polyline 0.25 2 2 0 (run demo_package polyline
       [call_freq 1 0.3 2 0 0; call_omega 0.1 2 3 0; call_tau 1 0.2 2 2 0]
       initial_world))
    = Ok z /\
    t = (- 10 * MTSUN / Py.imag z)%float.
Proof.
  apply (kerr_tau_of_kerr_omega demo_package polyline 10 0.25 2 2 0
           (demo_spins, demo_omega_220) initial_world (run demo_package polyline
       [call_freq 1 0.3 2 0 0; call_omega 0.1 2 3 0; call_tau 1 0.2 2 2 0]
       initial_world)).
  - by exists [].
  - by exists [call_freq 1 0.3 2 0 0; call_omega 0.1 2 3 0; call_tau 1 0.2 2 2 0].
  - reflexivity.
  - vm_compute. reflexivity.
  - vm_compute. reflexivity.
Defined.

Lemma overtone_ten_collides_witness :
  fst (kerr_omega demo_package_overtones polyline 0.5 2 1 10 initial_world)
  = fst (kerr_omega demo_package_overtones polyline 0.5 2 11 0 initial_world).
Proof.
  apply (overtone_ten_collides demo_package_overtones polyline "omega" "re"
           0.5 2 1 0 initial_world initial_world initial_world).
  - lia.
  - lia.
  - by exists [].
  - by exists [].
Defined.

(** The mode (2, 11, 0), which has no data of its own, is answered with the
    data of the tenth overtone of (2, 1). *)
Example kerr_omega_2_11_0 :
  fst (kerr_omega demo_package_overtones polyline 0.5 2 11 0 initial_world)
  = Ok (Py.Complex 0.4641 (-0.0856)).
Proof. vm_compute. reflexivity. Qed.
